(** * os-info: credential resolution and report building

    A shallow embedding of [os_info.py].  Python dictionaries that are only
    read by key are finite maps, ordered dictionaries that end up as CSV rows
    are association lists, and everything that touches the outside world
    (environment, files, terminal, the OpenStack SDK) runs in a small
    state-and-exception monad that records a trace of the interactions. *)

From Stdlib Require Import ZArith SpecFloat Ascii String.
From stdpp Require Import base option list gmap strings.

Local Open Scope string_scope.
Local Open Scope list_scope.
Local Open Scope Z_scope.

(** ** Python strings *)

Module PyStr.

(** Characters are code points below 256; [str.isspace] on that range. *)
Definition isspace (c : ascii) : bool :=
  let n := nat_of_ascii c in
  ((9 <=? n) && (n <=? 13) || (28 <=? n) && (n <=? 32)
   || (n =? 133) || (n =? 160))%nat.

Fixpoint lstrip (s : string) : string :=
  match s with
  | String c s' => if isspace c then lstrip s' else s
  | EmptyString => EmptyString
  end.

(** [rstrip] drops the trailing run of whitespace. *)
Fixpoint rstrip (s : string) : string :=
  match s with
  | String c s' =>
      match rstrip s' with
      | EmptyString => if isspace c then EmptyString else String c EmptyString
      | t => String c t
      end
  | EmptyString => EmptyString
  end.

(** [s.strip()] *)
Definition strip (s : string) : string := rstrip (lstrip s).

(** [s.startswith(p)] *)
Fixpoint startswith (p s : string) : bool :=
  match p, s with
  | EmptyString, _ => true
  | String a p', String b s' => if Ascii.eqb a b then startswith p' s' else false
  | String _ _, EmptyString => false
  end.

(** [p in s] *)
Fixpoint contains (p s : string) : bool :=
  startswith p s ||
  match s with
  | String _ s' => contains p s'
  | EmptyString => false
  end.

(** [s.split(sep)] for a one-character separator: never empty. *)
Fixpoint split (sep : ascii) (s : string) : list string :=
  match s with
  | EmptyString => [EmptyString]
  | String c s' =>
      if Ascii.eqb c sep then EmptyString :: split sep s'
      else match split sep s' with
           | piece :: pieces => String c piece :: pieces
           | [] => [String c EmptyString]
           end
  end.

(** [sep.join(parts)] *)
Fixpoint join (sep : string) (parts : list string) : string :=
  match parts with
  | [] => EmptyString
  | [p] => p
  | p :: rest => p +:+ sep +:+ join sep rest
  end.

(** [s.lower()] on code points below 256. *)
Definition lower_char (c : ascii) : ascii :=
  let n := nat_of_ascii c in
  if ((65 <=? n) && (n <=? 90)
      || (192 <=? n) && (n <=? 222) && negb (n =? 215))%nat
  then ascii_of_nat (n + 32) else c.

Fixpoint lower (s : string) : string :=
  match s with
  | EmptyString => EmptyString
  | String c s' => String (lower_char c) (lower s')
  end.

(** Truthiness of a string. *)
Definition truthy (s : string) : bool :=
  match s with EmptyString => false | _ => true end.

End PyStr.

(** ** Exceptions, results and the interaction monad *)

(** An exception is its class name and [str(e)]. *)
Inductive exn := Exception (cls msg : string).

Definition exn_str (e : exn) : string := let 'Exception _ msg := e in msg.
Definition exn_cls (e : exn) : string := let 'Exception cls _ := e in cls.

Inductive result (A : Type) := Ok (a : A) | Raise (e : exn).
Arguments Ok {A} a.
Arguments Raise {A} e.

(** A credential record: keyword name to value. *)
Abbreviation auth_dict := (gmap string string).

(** Python values that end up in report rows. *)
Inductive pyval :=
| PNone
| PInt (z : Z)
| PFloat (f : spec_float)
| PStr (s : string)
| PDict (d : gmap string string).

(** An ordered dictionary with string keys. *)
Abbreviation row := (list (string * pyval)).

(** What the program does to the outside world, in order. *)
Inductive event :=
| EvPrint (line : string)
| EvGetenv (var : string)
| EvPathExists (path : string)
| EvConfigRead (path : string)
| EvInput (prompt : string)
| EvGetpass (prompt : string)
| EvConnect (auth_config : auth_dict)
| EvAuthorize
| EvServers
| EvHypervisors
| EvGetProject (id : string)
| EvGetFlavor (id : string)
| EvGetImage (id : string)
| EvGetVolume (id : string)
| EvNow
| EvWriteCsv (filename : string) (header : list string) (rows : list row).

(** Pending terminal input and the trace so far. *)
Record io_state := IoState {
  stdin : list string;
  tty : list string;
  trace : list event
}.

Definition IO (A : Type) : Type := io_state → result A * io_state.

Global Instance io_ret : MRet IO := λ A a s, (Ok a, s).
Global Instance io_bind : MBind IO := λ A B f m s,
  match m s with
  | (Ok a, s') => f a s'
  | (Raise e, s') => (Raise e, s')
  end.

Definition raise {A} (e : exn) : IO A := λ s, (Raise e, s).

(** [try: body  except Exception as e: handler e] *)
Definition try_except {A} (body : IO A) (handler : exn → IO A) : IO A := λ s,
  match body s with
  | (Ok a, s') => (Ok a, s')
  | (Raise e, s') => handler e s'
  end.

Definition emit (ev : event) : IO unit := λ s,
  (Ok (), IoState (stdin s) (tty s) (trace s ++ [ev])).

Definition print (line : string) : IO unit := emit (EvPrint line).

(** Lift the answer of an outside collaborator. *)
Definition lift {A} (r : result A) : IO A := λ s, (r, s).

(** [input(prompt)]: one line from standard input, [EOFError] at its end. *)
Definition input (prompt : string) : IO string := λ s,
  let tr := trace s ++ [EvInput prompt] in
  match stdin s with
  | line :: rest => (Ok line, IoState rest (tty s) tr)
  | [] => (Raise (Exception "EOFError" "EOF when reading a line"),
           IoState [] (tty s) tr)
  end.

(** [getpass.getpass(prompt)]: one line from the terminal, not echoed. *)
Definition getpass (prompt : string) : IO string := λ s,
  let tr := trace s ++ [EvGetpass prompt] in
  match tty s with
  | line :: rest => (Ok line, IoState (stdin s) rest tr)
  | [] => (Raise (Exception "EOFError" ""), IoState (stdin s) [] tr)
  end.

(** [for x in xs: body], the body updating the local variables [acc]. *)
Fixpoint for_fold {A B} (xs : list A) (acc : B) (body : B → A → IO B) : IO B :=
  match xs with
  | [] => mret acc
  | x :: rest => acc' ← body acc x; for_fold rest acc' body
  end.

(** ** The [configparser] collaborator

    [configparser.ConfigParser()] after [read]: option names are already
    lower-cased, values are raw strings, and [get] applies the default
    [BasicInterpolation]. *)

Module configparser.

Record ConfigParser := {
  _defaults : gmap string string;
  _sections : gmap string (gmap string string)
}.

Definition empty : ConfigParser :=
  {| _defaults := ∅; _sections := ∅ |}.

Definition default_section : string := "DEFAULT".
Definition MAX_INTERPOLATION_DEPTH : nat := 10.

(** [key in config] *)
Definition contains (config : ConfigParser) (key : string) : bool :=
  bool_decide (key = default_section)
  || bool_decide (is_Some (_sections config !! key)).

(** [config.has_option(section, option)] *)
Definition has_option (config : ConfigParser) (section option : string) : bool :=
  if bool_decide (section = "") || bool_decide (section = default_section)
  then bool_decide (is_Some (_defaults config !! PyStr.lower option))
  else match _sections config !! section with
       | None => false
       | Some d => bool_decide (is_Some (d !! PyStr.lower option))
                   || bool_decide (is_Some (_defaults config !! PyStr.lower option))
       end.

(** [s.find(c)]: the text before the first [c] and the text from it on. *)
Fixpoint break_at (c : ascii) (s : string) : option (string * string) :=
  match s with
  | EmptyString => None
  | String a s' =>
      if Ascii.eqb a c then Some (EmptyString, s)
      else match break_at c s' with
           | Some (before, rest) => Some (String a before, rest)
           | None => None
           end
  end.

(** [_KEYCRE.match(rest)] for [%\(([^)]+)\)s]: the name and what follows. *)
Definition match_keycre (rest : string) : option (string * string) :=
  match rest with
  | String "%" (String "(" s) =>
      match break_at ")" s with
      | Some (String a name, String _ (String "s" after)) =>
          Some (String a name, after)
      | _ => None
      end
  | _ => None
  end.

Definition InterpolationSyntaxError (msg : string) : exn :=
  Exception "InterpolationSyntaxError" msg.

(** [BasicInterpolation._interpolate_some]; [depth_left] counts the calls
    still allowed, the inner loop runs on the characters of [rest]. *)
Fixpoint _interpolate_some (map : gmap string string) (depth_left : nat)
    (rest accum : string) {struct depth_left} : result string :=
  match depth_left with
  | O => Raise (Exception "InterpolationDepthError"
                  "Recursion limit exceeded in value substitution")
  | S depth_left' =>
      (fix loop (fuel : nat) (rest accum : string) {struct fuel} : result string :=
         match fuel, rest with
         | O, _ | _, EmptyString => Ok accum
         | S fuel', _ =>
             match break_at "%" rest with
             | None => Ok (accum +:+ rest)
             | Some (before, rest) =>
                 let accum := accum +:+ before in
                 match rest with
                 | String _ (String "%" rest') => loop fuel' rest' (accum +:+ "%")
                 | String _ (String "(" _) =>
                     match match_keycre rest with
                     | None =>
                         Raise (InterpolationSyntaxError
                                  ("bad interpolation variable reference " +:+ rest))
                     | Some (var, rest') =>
                         match map !! PyStr.lower var with
                         | None =>
                             Raise (Exception "InterpolationMissingOptionError"
                                      ("Bad value substitution: key " +:+ PyStr.lower var))
                         | Some v =>
                             if PyStr.contains "%" v then
                               match _interpolate_some map depth_left' v accum with
                               | Ok accum' => loop fuel' rest' accum'
                               | Raise e => Raise e
                               end
                             else loop fuel' rest' (accum +:+ v)
                         end
                     end
                 | _ =>
                     Raise (InterpolationSyntaxError
                              ("'%' must be followed by '%' or '(', found: " +:+ rest))
                 end
             end
         end) (S (String.length rest)) rest accum
  end.

(** [config.get(section, option)] *)
Definition get (config : ConfigParser) (section option : string) : result string :=
  match _sections config !! section with
  | None =>
      if bool_decide (section = default_section) then
        match _defaults config !! PyStr.lower option with
        | None => Raise (Exception "NoOptionError" ("No option " +:+ option))
        | Some value =>
            _interpolate_some (_defaults config) MAX_INTERPOLATION_DEPTH value ""
        end
      else Raise (Exception "NoSectionError" ("No section: " +:+ section))
  | Some sectiondict =>
      let d := sectiondict ∪ _defaults config in
      match d !! PyStr.lower option with
      | None => Raise (Exception "NoOptionError" ("No option " +:+ option))
      | Some value => _interpolate_some d MAX_INTERPOLATION_DEPTH value ""
      end
  end.

(** [config[section][key]] *)
Definition getitem (config : ConfigParser) (section key : string) : result string :=
  if has_option config section key then get config section key
  else Raise (Exception "KeyError" key).

End configparser.

Import configparser.

(** What [config.read(path)] and [os.path.exists(path)] find at a path. *)
Inductive file_state :=
| Missing                      (* nothing there *)
| Unreadable                   (* exists, [open] raises [OSError] *)
| Malformed (e : exn)          (* opens, the parser raises [e] *)
| Parsed (config : ConfigParser).

(** ** The OpenStack SDK collaborator *)

Module Flavor.
Record t := { name : string; vcpus : option Z; ram : option Z; disk : option Z }.
End Flavor.

Module Project.
Record t := { name : string }.
End Project.

Module Image.
Record t := { name : string }.
End Image.

(** A volume, its fields as [str()] renders them. *)
Module Volume.
Record t := { id : string; name : string; size : string }.
End Volume.

(** One entry of [server.addresses[network]]: the values under ['addr'] and
    ['OS-EXT-IPS:type']. *)
Module Address.
Record t := { addr : string; ips_type : string }.
End Address.

Module Server.
Record t := {
  id : string;
  name : string;
  status : string;
  project_id : option string;
  flavor : option (gmap string string);     (* [None] or a dict *)
  image : option (gmap string string);
  addresses : list (string * list Address.t); (* [None] and [{}] are [[]] *)
  attached_volumes : list (gmap string string);
  created_at : pyval;
  metadata : string;                        (* [str(server.metadata)] *)
  to_dict : gmap string pyval               (* also serves [in] and [[]] *)
}.
End Server.

Module Hypervisor.
Record t := {
  id : pyval;
  name : string;
  hypervisor_type : pyval;
  state : pyval;
  status : pyval;
  vcpus : Z;
  vcpus_used : Z;
  memory_size : Z;
  memory_used : Z;
  local_disk_size : Z;
  local_disk_used : Z;
  running_vms : pyval;
  host_ip : pyval
}.
End Hypervisor.

(** What [conn.compute.hypervisors()] hands back: a generator is truthy even
    when it yields nothing, a list is not. *)
Inductive iterable (A : Type) :=
| PyList (items : list A)
| PyGenerator (items : list A).
Arguments PyList {A} items.
Arguments PyGenerator {A} items.

Definition iter_items {A} (it : iterable A) : list A :=
  match it with PyList l | PyGenerator l => l end.

Definition iter_truthy {A} (it : iterable A) : bool :=
  match it with
  | PyList [] => false
  | _ => true
  end.

(** An established session: the answers of the control plane. *)
Record connection := {
  authorize : result unit;
  servers : result (list Server.t);
  hypervisors : result (iterable Hypervisor.t);
  get_project : string → result (option Project.t);
  get_flavor : string → result (option Flavor.t);
  get_image : string → result (option Image.t);
  get_volume : string → result Volume.t
}.

(** ** The process environment *)

Record world := {
  OPENSTACK_AVAILABLE : bool;
  environ : gmap string string;
  expanduser : string → string;
  fs : string → file_state;
  openstack_connect : auth_dict → result connection;
  (** [(datetime.now(timezone.utc) - datetime.fromisoformat(iso)).total_seconds()] *)
  seconds_since : string → result spec_float;
  (** opening a file for writing *)
  open_w : string → result unit
}.

(** [os.path.exists(path)] *)
Definition path_exists (w : world) (path : string) : IO bool :=
  emit (EvPathExists path);;
  mret (match fs w path with Missing => false | _ => true end).

(** [config.read(path)]: files that cannot be opened are skipped silently. *)
Definition config_read (w : world) (path : string) : IO ConfigParser :=
  emit (EvConfigRead path);;
  match fs w path with
  | Missing | Unreadable => mret configparser.empty
  | Malformed e => raise e
  | Parsed config => mret config
  end.

(** [os.environ.get(var)] *)
Definition environ_get (w : world) (var : string) : IO (option string) :=
  emit (EvGetenv var);;
  mret (environ w !! var).

(** ** Credential resolver *)

Definition config_mapping : list (string * string) :=
  [("auth_url", "auth_url"); ("username", "username"); ("password", "password");
   ("project_name", "project_name"); ("user_domain_name", "user_domain_name");
   ("project_domain_name", "project_domain_name"); ("region_name", "region_name");
   ("interface", "interface")].

(** The body of the loop over [config_mapping] (lines 50-52). *)
Definition copy_option (config : ConfigParser) (auth_config : auth_dict)
    (entry : string * string) : IO auth_dict :=
  let '(config_key, param_key) := entry in
  if has_option config "openstack" config_key then
    value ← lift (getitem config "openstack" config_key);
    mret (<[param_key := value]> auth_config)
  else mret auth_config.

Definition load_config_file (w : world) (config_path : string)
    : IO (option auth_dict) :=
  try_except
    (config ← config_read w config_path;
     if negb (configparser.contains config "openstack") then
       raise (Exception "ValueError"
                "Configuration file must contain an [openstack] section")
     else
       auth_config ← for_fold config_mapping (∅ : auth_dict) (copy_option config);
       mret (Some auth_config))
    (λ e,
       print ("Error loading configuration file '" +:+ config_path +:+ "': "
              +:+ exn_str e);;
       mret None).

Definition env_mapping : list (string * string) :=
  [("OS_AUTH_URL", "auth_url"); ("OS_USERNAME", "username");
   ("OS_PASSWORD", "password"); ("OS_PROJECT_NAME", "project_name");
   ("OS_USER_DOMAIN_NAME", "user_domain_name");
   ("OS_PROJECT_DOMAIN_NAME", "project_domain_name");
   ("OS_REGION_NAME", "region_name"); ("OS_INTERFACE", "interface")].

Definition get_auth_from_environment (w : world) : IO auth_dict :=
  for_fold env_mapping (∅ : auth_dict)
    (λ auth_config '(env_var, param_key),
       value ← environ_get w env_var;
       match value with
       | Some v => if PyStr.truthy v then mret (<[param_key := v]> auth_config)
                   else mret auth_config
       | None => mret auth_config
       end).

Definition get_auth_interactive : IO auth_dict :=
  print (String "010" "Interactive authentication setup:");;
  print "Enter your OpenStack credentials (required fields marked with *):";;
  let auth_config : auth_dict := ∅ in
  v ← input "* Auth URL: ";
  let auth_config := <["auth_url" := PyStr.strip v]> auth_config in
  v ← input "* Username: ";
  let auth_config := <["username" := PyStr.strip v]> auth_config in
  v ← getpass "* Password: ";
  let auth_config := <["password" := v]> auth_config in
  v ← input "* Project Name: ";
  let auth_config := <["project_name" := PyStr.strip v]> auth_config in
  v ← input "User Domain Name [default]: ";
  let user_domain := PyStr.strip v in
  let auth_config :=
    <["user_domain_name" :=
        if PyStr.truthy user_domain then user_domain else "default"]> auth_config in
  v ← input "Project Domain Name [default]: ";
  let project_domain := PyStr.strip v in
  let auth_config :=
    <["project_domain_name" :=
        if PyStr.truthy project_domain then project_domain else "default"]> auth_config in
  v ← input "Region Name (optional): ";
  let region := PyStr.strip v in
  let auth_config :=
    if PyStr.truthy region then <["region_name" := region]> auth_config
    else auth_config in
  v ← input "Interface [public]: ";
  let interface := PyStr.strip v in
  let auth_config :=
    <["interface" := if PyStr.truthy interface then interface else "public"]>
      auth_config in
  mret auth_config.

Definition required_fields : list string :=
  ["auth_url"; "username"; "password"; "project_name"].

(** [not auth_config.get(field)] *)
Definition not_get (auth_config : auth_dict) (field : string) : bool :=
  match auth_config !! field with
  | Some v => negb (PyStr.truthy v)
  | None => true
  end.

Definition validate_auth_config (auth_config : auth_dict) : bool * list string :=
  let missing_fields := List.filter (not_get auth_config) required_fields in
  (bool_decide (length missing_fields = 0%nat), missing_fields).

Definition nl : string := String "010" "".

(** Truthiness of a dictionary or of [None]. *)
Definition dict_truthy {V} (d : gmap string V) : bool :=
  negb (bool_decide (d = ∅)).

Definition opt_dict_truthy {V} (d : option (gmap string V)) : bool :=
  match d with Some d => dict_truthy d | None => false end.

(** [d[key]] *)
Definition dict_getitem {V} (d : gmap string V) (key : string) : result V :=
  match d !! key with
  | Some v => Ok v
  | None => Raise (Exception "KeyError" ("'" +:+ key +:+ "'"))
  end.

(** [d.setdefault(key, default)] *)
Definition setdefault (key default : string) (d : auth_dict) : auth_dict :=
  match d !! key with
  | Some _ => d
  | None => <[key := default]> d
  end.

Definition default_config_paths (w : world) : list string :=
  [expanduser w "~/.config/openstack/clouds.ini";
   expanduser w "~/.openstack/config";
   "./openstack.conf"].

(** The loop over [default_config_paths], leaving at [break]. *)
Fixpoint try_default_configs (w : world) (paths : list string)
    (auth_config : auth_dict) : IO auth_dict :=
  match paths with
  | [] => mret auth_config
  | config_path :: rest =>
      found ← path_exists w config_path;
      if (found : bool) then
        file_config ← load_config_file w config_path;
        match file_config : option auth_dict with
        | Some fc =>
            if dict_truthy fc && (validate_auth_config fc).1 then
              print ("Using configuration from: " +:+ config_path);;
              mret fc
            else try_default_configs w rest auth_config
        | None => try_default_configs w rest auth_config
        end
      else try_default_configs w rest auth_config
  end.

(** Lines 147-198 of [setup_openstack_connection]: the SDK check and the
    choice of [auth_config] by [auth_method]. *)
Definition resolve_auth_config (w : world) (auth_method : string)
    (config_file : option string) (kwargs : auth_dict) : IO auth_dict :=
  if negb (OPENSTACK_AVAILABLE w) then
    raise (Exception "ImportError"
             ("OpenStack SDK is not installed. Please install it with:" +:+ nl
              +:+ "pip install openstacksdk" +:+ nl +:+ "or" +:+ nl
              +:+ "pip install -r requirements-test.txt"))
  else if String.eqb auth_method "auto" then
    auth_config ← get_auth_from_environment w;
    if negb (validate_auth_config auth_config).1 then
      auth_config ← try_default_configs w (default_config_paths w) auth_config;
      if negb (validate_auth_config auth_config).1 then
        print "No valid authentication found in environment or config files.";;
        get_auth_interactive
      else mret auth_config
    else mret auth_config
  else if String.eqb auth_method "env" then
    get_auth_from_environment w
  else if String.eqb auth_method "config" then
    match config_file with
    | Some (String c path) =>
        auth_config ← load_config_file w (String c path);
        match auth_config : option auth_dict with
        | Some ac =>
            if dict_truthy ac then mret ac
            else raise (Exception "ValueError"
                          ("Failed to load configuration from " +:+ String c path))
        | None => raise (Exception "ValueError"
                           ("Failed to load configuration from " +:+ String c path))
        end
    | _ => raise (Exception "ValueError"
                    "Config file path must be provided when using 'config' auth method")
    end
  else if String.eqb auth_method "interactive" then
    get_auth_interactive
  else if String.eqb auth_method "args" then
    mret kwargs
  else
    raise (Exception "ValueError" ("Unknown authentication method: " +:+ auth_method)).

(** Lines 205-208: the three [setdefault] calls. *)
Definition set_defaults (auth_config : auth_dict) : auth_dict :=
  setdefault "interface" "public"
    (setdefault "project_domain_name" "default"
       (setdefault "user_domain_name" "default" auth_config)).

(** Lines 210-224: connect, authorize, report. *)
Definition connect_and_authorize (w : world) (auth_config : auth_dict)
    : IO connection :=
  try_except
    (emit (EvConnect auth_config);;
     conn ← lift (openstack_connect w auth_config);
     emit EvAuthorize;;
     lift (authorize conn);;
     auth_url ← lift (dict_getitem auth_config "auth_url");
     print ("Successfully connected to OpenStack at " +:+ auth_url);;
     project_name ← lift (dict_getitem auth_config "project_name");
     print ("Project: " +:+ project_name);;
     username ← lift (dict_getitem auth_config "username");
     print ("User: " +:+ username);;
     mret conn)
    (λ e, print ("Error connecting to OpenStack: " +:+ exn_str e);; raise e).

Definition setup_openstack_connection (w : world) (auth_method : string)
    (config_file : option string) (kwargs : auth_dict) : IO connection :=
  auth_config ← resolve_auth_config w auth_method config_file kwargs;
  let '(is_valid, missing_fields) := validate_auth_config auth_config in
  if negb is_valid then
    raise (Exception "ValueError"
             ("Missing required authentication fields: "
              +:+ PyStr.join ", " missing_fields))
  else
    connect_and_authorize w (set_defaults auth_config).

(** ** Python numbers

    A [float] is an IEEE 754 binary64 value ([spec_float] at precision 53);
    integers are unbounded. *)

Module PyNum.

Definition prec : Z := 53.
Definition emax : Z := 1024.

(** The integer [z] as an (unrounded) significand with exponent 0. *)
Definition of_int (z : Z) : spec_float :=
  match z with
  | Z0 => S754_zero false
  | Zpos p => S754_finite false p 0
  | Zneg p => S754_finite true p 0
  end.

(** [float(z)] *)
Definition float (z : Z) : spec_float := binary_normalize prec emax z 0 false.

(** [a / b] on integers: the correctly rounded quotient. *)
Definition truediv (a b : Z) : result spec_float :=
  if b =? 0 then Raise (Exception "ZeroDivisionError" "division by zero")
  else if a =? 0 then Ok (S754_zero (b <? 0))
  else match SFdiv prec emax (of_int a) (of_int b) with
       | S754_infinity _ =>
           Raise (Exception "OverflowError"
                    "integer division result too large for a float")
       | q => Ok q
       end.

(** [x * n] for a float [x] and an integer [n] *)
Definition mul_int (x : spec_float) (n : Z) : spec_float :=
  SFmul prec emax x (float n).

(** [n / d] rounded to the nearest integer, ties to even ([0 <= n], [0 < d]). *)
Definition div_half_even (n d : Z) : Z :=
  let q := n / d in
  match 2 * (n mod d) ?= d with
  | Lt => q
  | Gt => q + 1
  | Eq => if Z.even q then q else q + 1
  end.

(** [round(x, 2)] on a float: the nearest multiple of 1/100 to the exact
    value of [x] (ties to even), then the float nearest to that decimal. *)
Definition round2_float (x : spec_float) : spec_float :=
  match x with
  | S754_finite s m e =>
      let hundredths :=
        match e with
        | Zneg p => div_half_even (100 * Zpos m) (2 ^ Zpos p)
        | _ => 100 * Zpos m * 2 ^ e
        end in
      match hundredths with
      | Zpos h => SFdiv prec emax (S754_finite s h 0) (S754_finite false 100 0)
      | _ => S754_zero s
      end
  | _ => x
  end.

(** [round(v, 2)]: an integer rounds to itself. *)
Definition round2 (v : pyval) : pyval :=
  match v with
  | PFloat f => PFloat (round2_float f)
  | _ => v
  end.

(** [v > 1.0] *)
Definition gt_one (v : pyval) : bool :=
  match v with
  | PFloat f => SFltb (float 1) f
  | PInt z => 1 <? z
  | _ => false
  end.

(** [(num / den) if den > 0 else 0] *)
Definition ratio_or_zero (num den : Z) : result pyval :=
  if 0 <? den then
    match truediv num den with
    | Ok q => Ok (PFloat q)
    | Raise e => Raise e
    end
  else Ok (PInt 0).

(** [(num / den) * 100 if den > 0 else 0] *)
Definition percent_or_zero (num den : Z) : result pyval :=
  if 0 <? den then
    match truediv num den with
    | Ok q => Ok (PFloat (mul_int q 100))
    | Raise e => Raise e
    end
  else Ok (PInt 0).

(** Truthiness of a value. *)
Definition truthy (v : pyval) : bool :=
  match v with
  | PNone => false
  | PInt z => negb (z =? 0)
  | PFloat (S754_zero _) => false
  | PFloat _ => true
  | PStr s => PyStr.truthy s
  | PDict d => negb (bool_decide (d = ∅))
  end.

(** The float literal written as [digits] with [places] decimal places. *)
Definition decimal (digits : Z) (places : nat) : spec_float :=
  match truediv digits (10 ^ Z.of_nat places) with
  | Ok q => q
  | Raise _ => S754_nan
  end.

End PyNum.

Global Instance spec_float_eq_dec : EqDecision spec_float.
Proof. solve_decision. Defined.
Global Instance pyval_eq_dec : EqDecision pyval.
Proof. solve_decision. Defined.

(** ** Report builder *)

(** [server.to_dict().get(key, default)] *)
Definition to_dict_get (server : Server.t) (key : string) (default : pyval) : pyval :=
  match Server.to_dict server !! key with
  | Some v => v
  | None => default
  end.

(** [key in server] *)
Definition server_has (server : Server.t) (key : string) : bool :=
  bool_decide (is_Some (Server.to_dict server !! key)).

(** [server[key] if key in server else "N/A"] *)
Definition item_or_na (server : Server.t) (key : string) : pyval :=
  to_dict_get server key (PStr "N/A").

(** [d['id']] for an attribute [d] that is a dict or [None]. *)
Definition subscript_id (d : option (gmap string string)) : result string :=
  match d with
  | Some d => dict_getitem d "id"
  | None => Raise (Exception "TypeError" "'NoneType' object is not subscriptable")
  end.

Definition opt_int (z : option Z) : pyval :=
  match z with Some z => PInt z | None => PNone end.

(** The [network:address (type)] entries, network by network. *)
Definition network_entries (addresses : list (string * list Address.t)) : list string :=
  mjoin
    ((λ '(network_name, addresses),
        (λ address,
           network_name +:+ ":" +:+ Address.addr address
           +:+ " (" +:+ Address.ips_type address +:+ ")") <$> addresses)
       <$> addresses).

(** [xs[i]] *)
Definition list_getitem (xs : list string) (i : nat) : result string :=
  match xs !! i with
  | Some x => Ok x
  | None => Raise (Exception "IndexError" "list index out of range")
  end.

(** The value under ["Public IP"] (line 304). *)
Definition public_ip (network_ips : list string) : result string :=
  match network_ips with
  | first :: _ =>
      if PyStr.contains "floating" first then
        match list_getitem (PyStr.split ":" first) 1 with
        | Ok after_colon =>
            match list_getitem (PyStr.split "(" after_colon) 0 with
            | Ok before_paren => Ok (PyStr.strip before_paren)
            | Raise e => Raise e
            end
        | Raise e => Raise e
        end
      else Ok "N/A"
  | [] => Ok "N/A"
  end.

(** [s.replace('Z', '+00:00')] *)
Fixpoint replace_Z (s : string) : string :=
  match s with
  | EmptyString => EmptyString
  | String c s' =>
      if Ascii.eqb c "Z" then "+00:00" +:+ replace_Z s' else String c (replace_Z s')
  end.

(** [open(filename, 'w')], then [csv.DictWriter]: header, then the rows. *)
Definition write_csv (w : world) (filename : string) (keys : list string)
    (rows : list row) : IO unit :=
  lift (open_w w filename);;
  emit (EvWriteCsv filename keys rows).

(** [d.get(key)] on a row *)
Fixpoint row_get (r : row) (key : string) : option pyval :=
  match r with
  | [] => None
  | (k, v) :: rest => if String.eqb k key then Some v else row_get rest key
  end.

Global Instance result_ret : MRet result := λ A a, Ok a.
Global Instance result_bind : MBind result := λ A B f m,
  match m with
  | Ok a => f a
  | Raise e => Raise e
  end.

Section report.
Context (w : world) (conn : connection).

Definition volume_info (vol : gmap string string) : IO string :=
  try_except
    (vol_id ← lift (dict_getitem vol "id");
     emit (EvGetVolume vol_id);;
     volume_details ← lift (get_volume conn vol_id);
     mret ("ID:" +:+ Volume.id volume_details +:+ ", Name:"
           +:+ Volume.name volume_details +:+ ", Size:"
           +:+ Volume.size volume_details +:+ "GB"))
    (λ e,
       vol_id ← lift (dict_getitem vol "id");
       mret ("ID:" +:+ vol_id +:+ ", Details: Error - " +:+ exn_str e)).

Definition uptime_of (server : Server.t) : IO pyval :=
  if String.eqb (Server.status server) "ACTIVE"
     && server_has server "OS-SRV-USG:launched_at" then
    match to_dict_get server "OS-SRV-USG:launched_at" PNone with
    | PStr launched_at_iso =>
        if PyStr.truthy launched_at_iso then
          emit EvNow;;
          seconds ← lift (seconds_since w (replace_Z launched_at_iso));
          mret (PFloat seconds)
        else mret PNone
    | v =>
        if PyNum.truthy v then
          raise (Exception "AttributeError" "object has no attribute 'replace'")
        else mret PNone
    end
  else mret PNone.

(** The body of the loop over [all_servers] in the instance pass. *)
Definition instance_details (server : Server.t) : IO row :=
  print ("Processing instance: " +:+ Server.name server
         +:+ " (" +:+ Server.id server +:+ ")");;
  project ←
    match Server.project_id server with
    | Some (String c pid) =>
        emit (EvGetProject (String c pid));;
        lift (get_project conn (String c pid))
    | _ => mret None
    end;
  flavor ←
    (if server_has server "flavor" then
       flavor_id ← lift (subscript_id (Server.flavor server));
       emit (EvGetFlavor flavor_id);;
       lift (get_flavor conn flavor_id)
     else mret None);
  image ←
    (if server_has server "image" then
       image_id ← lift (subscript_id (Server.image server));
       emit (EvGetImage image_id);;
       lift (get_image conn image_id)
     else mret None);
  let network_ips := network_entries (Server.addresses server) in
  let network_str := PyStr.join "; " network_ips in
  volumes_info ←
    for_fold (Server.attached_volumes server) ([] : list string)
      (λ volumes_info vol, info ← volume_info vol; mret (volumes_info ++ [info]));
  let volumes_str := PyStr.join "; " volumes_info in
  uptime_seconds ← uptime_of server;
  let hypervisor_hostname :=
    to_dict_get server "OS-EXT-SRV-ATTR:hypervisor_hostname" (PStr "N/A") in
  public ← lift (public_ip network_ips);
  let na {A} (f : A → pyval) (o : option A) : pyval :=
    match o with Some x => f x | None => PStr "N/A" end in
  mret [
    ("ID", PStr (Server.id server)); ("Name", PStr (Server.name server));
    ("Status", PStr (Server.status server));
    ("Power State", item_or_na server "OS-EXT-STS:power_state");
    ("VM State", item_or_na server "OS-EXT-STS:vm_state");
    ("Project Name", na (λ p, PStr (Project.name p)) project);
    ("Availability Zone", item_or_na server "OS-EXT-AZ:availability_zone");
    ("Hypervisor Hostname", hypervisor_hostname);
    ("Image Name", na (λ i, PStr (Image.name i)) image);
    ("Flavor Name", na (λ f, PStr (Flavor.name f)) flavor);
    ("VCPUs", na (λ f, opt_int (Flavor.vcpus f)) flavor);
    ("RAM (MB)", na (λ f, opt_int (Flavor.ram f)) flavor);
    ("Disk (GB)", na (λ f, opt_int (Flavor.disk f)) flavor);
    ("Uptime (s)", uptime_seconds);
    ("Created At", Server.created_at server);
    ("Public IP", PStr public);
    ("Network IPs", PStr network_str);
    ("Attached Volumes", PStr volumes_str);
    ("Metadata", PStr (Server.metadata server))
  ].

End report.

Section hypervisor_pass.
Context (w : world) (conn : connection).

Definition ACTIVE_STATES : list string := ["ACTIVE"; "PAUSED"; "SUSPENDED"].

(** The test on line 349. *)
Definition on_hypervisor (hypervisor : Hypervisor.t) (server : Server.t) : bool :=
  let server_hypervisor :=
    to_dict_get server "OS-EXT-SRV-ATTR:hypervisor_hostname" (PStr "") in
  bool_decide (server_hypervisor = PStr (Hypervisor.name hypervisor))
  && bool_decide (Server.status server ∈ ACTIVE_STATES).

(** The local variables of the loop on lines 342-360. *)
Record allocation := Allocation {
  allocated_vcpus : Z;
  allocated_memory : Z;
  instances_on_hypervisor : list Server.t
}.

(** [x or 0] *)
Definition or_zero (x : option Z) : Z :=
  match x with Some z => z | None => 0 end.

(** The body of the loop over [all_servers] (lines 347-360). *)
Definition count_server (hypervisor : Hypervisor.t) (acc : allocation)
    (server : Server.t) : IO allocation :=
  if on_hypervisor hypervisor server then
    let acc := Allocation (allocated_vcpus acc) (allocated_memory acc)
                 (instances_on_hypervisor acc ++ [server]) in
    if server_has server "flavor" && opt_dict_truthy (Server.flavor server) then
      try_except
        (flavor_id ← lift (subscript_id (Server.flavor server));
         emit (EvGetFlavor flavor_id);;
         flavor ← lift (get_flavor conn flavor_id);
         match flavor : option Flavor.t with
         | Some flavor =>
             mret (Allocation
                     (allocated_vcpus acc + or_zero (Flavor.vcpus flavor))
                     (allocated_memory acc + or_zero (Flavor.ram flavor))
                     (instances_on_hypervisor acc))
         | None => mret acc
         end)
        (λ e,
           print ("Warning: Could not get flavor details for server "
                  +:+ Server.id server +:+ ": " +:+ exn_str e);;
           mret acc)
    else mret acc
  else mret acc.

Definition yes_no (b : bool) : pyval := PStr (if b then "Yes" else "No").

(** Lines 362-415: the derived figures and the row. *)
Definition hypervisor_details (hypervisor : Hypervisor.t) (acc : allocation)
    : result row :=
  let vcpus := Hypervisor.vcpus hypervisor in
  let memory_size := Hypervisor.memory_size hypervisor in
  let local_disk_size := Hypervisor.local_disk_size hypervisor in
  cpu_overcommit_ratio ← PyNum.ratio_or_zero (allocated_vcpus acc) vcpus;
  memory_overcommit_ratio ← PyNum.ratio_or_zero (allocated_memory acc) memory_size;
  physical_cpu_usage ←
    PyNum.percent_or_zero (Hypervisor.vcpus_used hypervisor) vcpus;
  physical_memory_usage ←
    PyNum.percent_or_zero (Hypervisor.memory_used hypervisor) memory_size;
  allocated_cpu_percentage ← PyNum.percent_or_zero (allocated_vcpus acc) vcpus;
  allocated_memory_percentage ←
    PyNum.percent_or_zero (allocated_memory acc) memory_size;
  disk_usage ←
    (if 0 <? local_disk_size then
       q ← PyNum.truediv (Hypervisor.local_disk_used hypervisor) local_disk_size;
       mret (PyNum.round2 (PFloat (PyNum.mul_int q 100)))
     else Ok (PInt 0));
  mret [
    ("ID", Hypervisor.id hypervisor);
    ("Hostname", PStr (Hypervisor.name hypervisor));
    ("Hypervisor Type", Hypervisor.hypervisor_type hypervisor);
    ("State", Hypervisor.state hypervisor);
    ("Status", Hypervisor.status hypervisor);
    ("Physical CPUs", PInt vcpus);
    ("Physical CPUs Used", PInt (Hypervisor.vcpus_used hypervisor));
    ("Physical CPU Usage (%)", PyNum.round2 physical_cpu_usage);
    ("Allocated VCPUs", PInt (allocated_vcpus acc));
    ("Allocated CPU (%)", PyNum.round2 allocated_cpu_percentage);
    ("CPU Overcommit Ratio", PyNum.round2 cpu_overcommit_ratio);
    ("Physical RAM Total (MB)", PInt memory_size);
    ("Physical RAM Used (MB)", PInt (Hypervisor.memory_used hypervisor));
    ("Physical RAM Usage (%)", PyNum.round2 physical_memory_usage);
    ("Allocated RAM (MB)", PInt (allocated_memory acc));
    ("Allocated RAM (%)", PyNum.round2 allocated_memory_percentage);
    ("Memory Overcommit Ratio", PyNum.round2 memory_overcommit_ratio);
    ("Disk Total (GB)", PInt local_disk_size);
    ("Disk Used (GB)", PInt (Hypervisor.local_disk_used hypervisor));
    ("Disk Usage (%)", disk_usage);
    ("Running VMs", Hypervisor.running_vms hypervisor);
    ("Active Instances", PInt (Z.of_nat (length (instances_on_hypervisor acc))));
    ("Host IP", Hypervisor.host_ip hypervisor);
    ("CPU Overcommitted", yes_no (PyNum.gt_one cpu_overcommit_ratio));
    ("Memory Overcommitted", yes_no (PyNum.gt_one memory_overcommit_ratio))
  ].

(** The body of the loop over [hypervisors] (lines 338-416). *)
Definition hypervisor_row (all_servers : list Server.t)
    (hypervisor : Hypervisor.t) : IO row :=
  print ("Processing hypervisor: " +:+ Hypervisor.name hypervisor);;
  acc ← for_fold all_servers (Allocation 0 0 []) (count_server hypervisor);
  lift (hypervisor_details hypervisor acc).

Definition export_hypervisor_data (hypervisor_filename : string)
    (all_servers : list Server.t) : IO unit :=
  print (nl +:+ "--- Retrieving All Hypervisor Details ---");;
  emit EvHypervisors;;
  hypervisors ← lift (hypervisors conn);
  if iter_truthy hypervisors then
    hypervisor_data ←
      for_fold (iter_items hypervisors) ([] : list row)
        (λ hypervisor_data hypervisor,
           hypervisor_details ← hypervisor_row all_servers hypervisor;
           mret (hypervisor_data ++ [hypervisor_details]));
    match hypervisor_data with
    | first :: _ =>
        write_csv w hypervisor_filename (first.*1) hypervisor_data;;
        print ("Successfully exported hypervisor details to "
               +:+ hypervisor_filename +:+ ".")
    | [] => mret ()
    end
  else print "No hypervisor data to export.".

Definition export_instance_data (instance_filename : string)
    (all_servers : list Server.t) : IO unit :=
  match all_servers with
  | _ :: _ =>
      instance_data ←
        for_fold all_servers ([] : list row)
          (λ instance_data server,
             details ← instance_details w conn server;
             mret (instance_data ++ [details]));
      match instance_data with
      | first :: _ =>
          write_csv w instance_filename (first.*1) instance_data;;
          print ("Successfully exported instance details to "
                 +:+ instance_filename +:+ ".")
      | [] => mret ()
      end
  | [] => print "No instance data to export."
  end.

End hypervisor_pass.

Definition get_openstack_info_and_export_csv (w : world)
    (instance_filename hypervisor_filename : string) (conn : option connection)
    (export_instances export_hypervisors : bool) : IO unit :=
  match conn with
  | None => print "Error: OpenStack connection not provided"
  | Some conn =>
      if negb export_instances && negb export_hypervisors then
        print "Error: At least one export option (instances or hypervisors) must be enabled"
      else
        all_servers ←
          (if export_instances then
             print (nl +:+ "--- Retrieving All Instance Details ---");;
             emit EvServers;;
             all_servers ← lift (servers conn);
             export_instance_data w conn instance_filename all_servers;;
             mret all_servers
           else
             print "Instance export disabled - skipping instance data collection.";;
             if export_hypervisors then
               print "Retrieving server information for hypervisor overcommit calculations...";;
               emit EvServers;;
               lift (servers conn)
             else mret []);
        print "--------------------------------------------------";;
        if export_hypervisors then
          export_hypervisor_data w conn hypervisor_filename all_servers
        else
          print "Hypervisor export disabled - skipping hypervisor data collection."
  end.

(** ** Specification vocabulary for validation *)

Definition present_nonempty (r : auth_dict) (field : string) : Prop :=
  ∃ v, r !! field = Some v ∧ v ≠ "".

Definition absent_or_empty (r : auth_dict) (field : string) : Prop :=
  r !! field = None ∨ r !! field = Some "".

Global Instance absent_or_empty_dec r field : Decision (absent_or_empty r field).
Proof. unfold absent_or_empty. apply _. Defined.

Definition declared_order : list string :=
  ["auth_url"; "username"; "password"; "project_name"].


Definition defaulted_keys : list string :=
  ["user_domain_name"; "project_domain_name"; "interface"].


(** ** Specification vocabulary for the hypervisor pass *)

(** The instance runs on the hypervisor and counts as active. *)
Definition runs_on (hypervisor : Hypervisor.t) (server : Server.t) : Prop :=
  to_dict_get server "OS-EXT-SRV-ATTR:hypervisor_hostname" (PStr "")
    = PStr (Hypervisor.name hypervisor)
  ∧ (Server.status server = "ACTIVE" ∨ Server.status server = "PAUSED"
     ∨ Server.status server = "SUSPENDED").

Global Instance runs_on_dec hypervisor server : Decision (runs_on hypervisor server).
Proof. unfold runs_on. apply _. Defined.

(** The flavor the control plane resolves for an instance, if any. *)
Definition resolved_flavor (conn : connection) (server : Server.t) : option Flavor.t :=
  if server_has server "flavor" then
    match Server.flavor server with
    | Some d =>
        match d !! "id" with
        | Some flavor_id =>
            match get_flavor conn flavor_id with
            | Ok (Some flavor) => Some flavor
            | _ => None
            end
        | None => None
        end
    | None => None
    end
  else None.

Definition flavor_vcpus (conn : connection) (server : Server.t) : Z :=
  match resolved_flavor conn server with
  | Some flavor => default 0 (Flavor.vcpus flavor)
  | None => 0
  end.

Definition flavor_ram (conn : connection) (server : Server.t) : Z :=
  match resolved_flavor conn server with
  | Some flavor => default 0 (Flavor.ram flavor)
  | None => 0
  end.

Definition sumZ (zs : list Z) : Z := foldr Z.add 0 zs.

(** The state [s] after more events, with the pending input untouched. *)
Definition after (s : io_state) (evs : list event) : io_state :=
  IoState (stdin s) (tty s) (trace s ++ evs).

(** The disk usage entry, as the row computes it. *)
Definition disk_usage_of (hypervisor : Hypervisor.t) : result pyval :=
  if 0 <? Hypervisor.local_disk_size hypervisor then
    q ← PyNum.truediv (Hypervisor.local_disk_used hypervisor)
          (Hypervisor.local_disk_size hypervisor);
    mret (PyNum.round2 (PFloat (PyNum.mul_int q 100)))
  else Ok (PInt 0).

(** The overcommit figures of one report row, given the instances fetched. *)
Definition overcommit_figures (conn : connection) (all_servers : list Server.t)
    (hypervisor : Hypervisor.t) (r : row) : Prop :=
  let vcpus := sumZ (flavor_vcpus conn <$> filter (runs_on hypervisor) all_servers) in
  let ram := sumZ (flavor_ram conn <$> filter (runs_on hypervisor) all_servers) in
  ∃ cpu_ratio memory_ratio,
    row_get r "Allocated VCPUs" = Some (PInt vcpus)
    ∧ row_get r "Allocated RAM (MB)" = Some (PInt ram)
    ∧ (if 0 <? Hypervisor.vcpus hypervisor
       then ∃ q, PyNum.truediv vcpus (Hypervisor.vcpus hypervisor) = Ok q
                 ∧ cpu_ratio = PFloat q
       else cpu_ratio = PInt 0)
    ∧ (if 0 <? Hypervisor.memory_size hypervisor
       then ∃ q, PyNum.truediv ram (Hypervisor.memory_size hypervisor) = Ok q
                 ∧ memory_ratio = PFloat q
       else memory_ratio = PInt 0)
    ∧ row_get r "CPU Overcommit Ratio" = Some (PyNum.round2 cpu_ratio)
    ∧ row_get r "Memory Overcommit Ratio" = Some (PyNum.round2 memory_ratio)
    ∧ (row_get r "CPU Overcommitted" = Some (PStr "Yes") ↔ PyNum.gt_one cpu_ratio = true)
    ∧ (row_get r "CPU Overcommitted" = Some (PStr "No") ↔ PyNum.gt_one cpu_ratio = false)
    ∧ (row_get r "Memory Overcommitted" = Some (PStr "Yes")
       ↔ PyNum.gt_one memory_ratio = true)
    ∧ (row_get r "Memory Overcommitted" = Some (PStr "No")
       ↔ PyNum.gt_one memory_ratio = false).

(** Nothing typed, nothing traced. *)
Definition idle : io_state := IoState [] [] [].

(** ** A small cloud: one hypervisor, two instances *)

Module Example.

Definition m1_small : Flavor.t :=
  {| Flavor.name := "m1.small"; Flavor.vcpus := Some 2;
     Flavor.ram := Some 2048; Flavor.disk := Some 20 |}.

Definition test_server : Server.t :=
  {| Server.id := "server-123"; Server.name := "test-server";
     Server.status := "ACTIVE"; Server.project_id := Some "project-123";
     Server.flavor := Some {["id" := "flavor-123"]};
     Server.image := Some {["id" := "image-123"]};
     Server.addresses :=
       [("private", [{| Address.addr := "10.0.0.1"; Address.ips_type := "fixed" |}])];
     Server.attached_volumes := [];
     Server.created_at := PStr "2023-01-01T12:00:00Z";
     Server.metadata := "{'env': 'test'}";
     Server.to_dict :=
       {[ "OS-EXT-SRV-ATTR:hypervisor_hostname" := PStr "compute-01";
          "OS-EXT-STS:power_state" := PInt 1;
          "OS-EXT-STS:vm_state" := PStr "active";
          "OS-EXT-AZ:availability_zone" := PStr "nova";
          "OS-SRV-USG:launched_at" := PStr "2023-01-01T12:00:00Z";
          "flavor" := PDict {["id" := "flavor-123"]};
          "image" := PDict {["id" := "image-123"]} ]} |}.

Definition compute_01 : Hypervisor.t :=
  {| Hypervisor.id := PStr "hyp-123"; Hypervisor.name := "compute-01";
     Hypervisor.hypervisor_type := PStr "QEMU";
     Hypervisor.state := PStr "up"; Hypervisor.status := PStr "enabled";
     Hypervisor.vcpus := 16; Hypervisor.vcpus_used := 4;
     Hypervisor.memory_size := 32768; Hypervisor.memory_used := 8192;
     Hypervisor.local_disk_size := 1000; Hypervisor.local_disk_used := 250;
     Hypervisor.running_vms := PInt 2; Hypervisor.host_ip := PStr "192.168.1.10" |}.

(** A host that reports no capacity at all. *)
Definition empty_host : Hypervisor.t :=
  {| Hypervisor.id := PStr "hyp-000"; Hypervisor.name := "compute-01";
     Hypervisor.hypervisor_type := PStr "QEMU";
     Hypervisor.state := PStr "down"; Hypervisor.status := PStr "disabled";
     Hypervisor.vcpus := 0; Hypervisor.vcpus_used := 0;
     Hypervisor.memory_size := 0; Hypervisor.memory_used := 0;
     Hypervisor.local_disk_size := 0; Hypervisor.local_disk_used := 0;
     Hypervisor.running_vms := PInt 0; Hypervisor.host_ip := PNone |}.

Definition not_found (what : string) : exn :=
  Exception "ResourceNotFound" ("No " +:+ what +:+ " found").

Definition conn : connection :=
  {| authorize := Ok ();
     servers := Ok [test_server; test_server];
     hypervisors := Ok (PyGenerator [compute_01]);
     get_project := λ _, Ok (Some {| Project.name := "test-project" |});
     get_flavor := λ flavor_id,
       if String.eqb flavor_id "flavor-123" then Ok (Some m1_small)
       else Raise (not_found "Flavor");
     get_image := λ _, Ok (Some {| Image.name := "ubuntu-20.04" |});
     get_volume := λ _, Raise (not_found "Volume") |}.

(** An instance on a provider network that happens to be called
    [floating-net]; its only address is a fixed one. *)
Definition provider_net_addresses : list (string * list Address.t) :=
  [("floating-net", [{| Address.addr := "10.0.0.5"; Address.ips_type := "fixed" |}])].

End Example.

(** ** Specification vocabulary for credential resolution *)

(** The keys the configuration file may set. *)
Definition recognized_keys : list string :=
  ["auth_url"; "username"; "password"; "project_name"; "user_domain_name";
   "project_domain_name"; "region_name"; "interface"].

(** Events that ask the operator for input. *)
Definition is_prompt (ev : event) : bool :=
  match ev with
  | EvInput _ | EvGetpass _ => true
  | _ => false
  end.

(** Events that consult the file system. *)
Definition is_file_access (ev : event) : bool :=
  match ev with
  | EvPathExists _ | EvConfigRead _ => true
  | _ => false
  end.

(** A computation that never reads input: the same outcome and the same
    events from every state, none of them a prompt. *)
Definition hushed {A} (m : IO A) : Prop :=
  ∃ r evs, (∀ s, m s = (r, after s evs)) ∧ Forall (λ ev, is_prompt ev = false) evs.

(** The record [get_auth_from_environment] builds, as a function of the
    environment alone. *)
Definition environment_record (w : world) : auth_dict :=
  foldl (λ auth_config '(env_var, param_key),
           match environ w !! env_var with
           | Some v => if PyStr.truthy v then <[param_key := v]> auth_config
                       else auth_config
           | None => auth_config
           end) ∅ env_mapping.

(** What [load_config_file] returns for a path, and what it traces. *)
Definition loaded_record (w : world) (path : string) : option auth_dict :=
  match (load_config_file w path idle).1 with
  | Ok r => r
  | Raise _ => None
  end.

Definition load_events (w : world) (path : string) : list event :=
  trace (load_config_file w path idle).2.

Global Instance present_nonempty_dec r field : Decision (present_nonempty r field).
Proof.
  unfold present_nonempty.
  destruct (r !! field) as [v|]; [destruct (decide (v = "")) as [E|E]|].
  - right. intros (v' & [= <-] & Hne). by apply Hne.
  - left. by exists v.
  - right. intros (v' & [=] & _).
Defined.

(** The record of an existing file that parses and validates. *)
Definition usable_file (w : world) (path : string) : option auth_dict :=
  match fs w path with
  | Missing => None
  | _ =>
      match loaded_record w path with
      | Some r => if decide (Forall (present_nonempty r) declared_order)
                  then Some r else None
      | None => None
      end
  end.

(** The first usable file in a list of candidate paths. *)
Fixpoint first_usable (w : world) (paths : list string) : option (string * auth_dict) :=
  match paths with
  | [] => None
  | path :: rest =>
      match usable_file w path with
      | Some r => Some (path, r)
      | None => first_usable w rest
      end
  end.

(** The events of scanning candidate paths up to the first usable file. *)
Fixpoint scan_events (w : world) (paths : list string) : list event :=
  match paths with
  | [] => []
  | path :: rest =>
      EvPathExists path ::
      match fs w path with
      | Missing => scan_events w rest
      | _ =>
          load_events w path ++
          match usable_file w path with
          | Some _ => [EvPrint ("Using configuration from: " +:+ path)]
          | None => scan_events w rest
          end
      end
  end.

Definition well_known_paths (w : world) : list string :=
  [expanduser w "~/.config/openstack/clouds.ini";
   expanduser w "~/.openstack/config";
   "./openstack.conf"].

Definition validation_error (r : auth_dict) : exn :=
  Exception "ValueError"
    ("Missing required authentication fields: "
     +:+ PyStr.join ", " (filter (absent_or_empty r) declared_order)).

Module Worlds.

Definition home (path : string) : string :=
  match path with
  | String "~" rest => "/home/operator" +:+ rest
  | _ => path
  end.

Definition make (env : gmap string string) (files : string → file_state) : world :=
  {| OPENSTACK_AVAILABLE := true;
     environ := env;
     expanduser := home;
     fs := files;
     openstack_connect := λ _, Ok Example.conn;
     seconds_since := λ _, Ok (PyNum.float 3600);
     open_w := λ _, Ok () |}.

Definition full_env : gmap string string :=
  {[ "OS_AUTH_URL" := "https://keystone.example.com:5000/v3";
     "OS_USERNAME" := "testuser";
     "OS_PASSWORD" := "testpass";
     "OS_PROJECT_NAME" := "testproject" ]}.

Definition no_files : string → file_state := λ _, Missing.

Definition section (options : list (string * string)) : ConfigParser :=
  {| _defaults := ∅; _sections := {[ "openstack" := list_to_map options ]} |}.

Definition good_config : ConfigParser :=
  section [("auth_url", "https://keystone.example.com:5000/v3");
           ("username", "testuser"); ("password", "testpass");
           ("project_name", "testproject"); ("region_name", "RegionOne")].

(** The same file with a percent sign in the password. *)
Definition percent_config : ConfigParser :=
  section [("auth_url", "https://keystone.example.com:5000/v3");
           ("username", "testuser"); ("password", "p%ss");
           ("project_name", "testproject")].

Definition only (path : string) (config : ConfigParser) : string → file_state :=
  λ p, if String.eqb p path then Parsed config else Missing.

(** Credentials in the environment. *)
Definition from_env : world := make full_env no_files.

(** No environment; a valid [./openstack.conf]. *)
Definition from_file : world := make ∅ (only "./openstack.conf" good_config).

(** No environment; the password in [./openstack.conf] holds a [%]. *)
Definition from_percent_file : world :=
  make ∅ (only "./openstack.conf" percent_config).

(** Nothing anywhere. *)
Definition bare : world := make ∅ no_files.

End Worlds.

(** ** Specification vocabulary for the instance pass *)

(** The character does not occur in the string. *)
Fixpoint free_of (c : ascii) (s : string) : bool :=
  match s with
  | EmptyString => true
  | String x s' => negb (Ascii.eqb x c) && free_of c s'
  end.

(** One joined network entry. *)
Definition network_entry (network_name addr ips_type : string) : string :=
  network_name +:+ ":" +:+ addr +:+ " (" +:+ ips_type +:+ ")".

Module Instances.

(** [test-server] attached to a provider network called [floating-net]. *)
Definition on_provider_net : Server.t :=
  {| Server.id := "server-456"; Server.name := "edge-server";
     Server.status := "ACTIVE"; Server.project_id := Some "project-123";
     Server.flavor := Some {["id" := "flavor-123"]};
     Server.image := Some {["id" := "image-123"]};
     Server.addresses := Example.provider_net_addresses;
     Server.attached_volumes := [];
     Server.created_at := PStr "2023-01-01T12:00:00Z";
     Server.metadata := "{}";
     Server.to_dict :=
       {[ "OS-EXT-SRV-ATTR:hypervisor_hostname" := PStr "compute-01" ]} |}.

End Instances.

(** ** The command line and the program entry *)

(** The parsed command line ([argparse.Namespace]); an option that was not
    given is [None]. *)
Module Namespace.
Record t := {
  auth_method : string;
  config_file : option string;
  auth_url : option string;
  username : option string;
  password : option string;
  project_name : option string;
  user_domain_name : option string;
  project_domain_name : option string;
  region_name : option string;
  interface : option string;
  instances_file : string;
  hypervisors_file : string;
  export_instances : bool;
  export_hypervisors : bool;
  instances_only : bool;
  hypervisors_only : bool
}.
End Namespace.

(** [if value: auth_kwargs[key] = value] *)
Definition set_if_given (key : string) (value : option string)
    (auth_kwargs : auth_dict) : auth_dict :=
  match value with
  | Some v => if PyStr.truthy v then <[key := v]> auth_kwargs else auth_kwargs
  | None => auth_kwargs
  end.

(** Lines 539-555: the keyword arguments built from the command line. *)
Definition auth_kwargs_of (args : Namespace.t) : auth_dict :=
  let auth_kwargs : auth_dict := ∅ in
  let auth_kwargs := set_if_given "auth_url" (Namespace.auth_url args) auth_kwargs in
  let auth_kwargs := set_if_given "username" (Namespace.username args) auth_kwargs in
  let auth_kwargs := set_if_given "password" (Namespace.password args) auth_kwargs in
  let auth_kwargs :=
    set_if_given "project_name" (Namespace.project_name args) auth_kwargs in
  let auth_kwargs :=
    set_if_given "user_domain_name" (Namespace.user_domain_name args) auth_kwargs in
  let auth_kwargs :=
    set_if_given "project_domain_name" (Namespace.project_domain_name args)
      auth_kwargs in
  let auth_kwargs := set_if_given "region_name" (Namespace.region_name args) auth_kwargs in
  let auth_kwargs := set_if_given "interface" (Namespace.interface args) auth_kwargs in
  auth_kwargs.

(** Lines 529-534: the export toggles after the two shortcuts. *)
Definition export_toggles (args : Namespace.t) : bool * bool :=
  if Namespace.instances_only args then (true, false)
  else if Namespace.hypervisors_only args then (false, true)
  else (Namespace.export_instances args, Namespace.export_hypervisors args).

(** The [__main__] block after [parse_arguments()], returning the exit
    status: [sys.exit(1)] is 1, falling off the end is 0. *)
Definition main (w : world) (args : Namespace.t) : IO Z :=
  try_except
    (if negb (OPENSTACK_AVAILABLE w) then
       print "‚ùå OpenStack SDK is not installed!";;
       print (nl +:+ "To use this tool, please install the OpenStack SDK:");;
       print "  pip install openstacksdk";;
       print (nl +:+ "Or install all development dependencies:");;
       print "  pip install -r requirements-test.txt";;
       print (nl +:+ "For more information, see the README.md file.");;
       mret 1
     else
       let '(export_instances, export_hypervisors) := export_toggles args in
       conn ←
         (if String.eqb (Namespace.auth_method args) "args" then
            setup_openstack_connection w "args" None (auth_kwargs_of args)
          else
            setup_openstack_connection w (Namespace.auth_method args)
              (Namespace.config_file args) ∅);
       get_openstack_info_and_export_csv w (Namespace.instances_file args)
         (Namespace.hypervisors_file args) (Some conn)
         export_instances export_hypervisors;;
       mret 0)
    (λ e, print ("Error: " +:+ exn_str e);; mret 1).

(** ** A small logic of input-free computations *)

(** The computation reads no input: from every state it has the same outcome
    [r] and appends the same events, all of them satisfying [P]; a value it
    returns satisfies [Q]. *)
Definition yields {A} (P : event → Prop) (Q : A → Prop) (m : IO A) : Prop :=
  ∃ r evs,
    (∀ s, m s = (r, after s evs)) ∧ Forall P evs ∧ (∀ a, r = Ok a → Q a).

(** The events the report builder may produce, by the two toggles and the
    two file names. *)
Definition report_event (export_instances export_hypervisors : bool)
    (instance_filename hypervisor_filename : string) (ev : event) : bool :=
  match ev with
  | EvPrint _ | EvServers | EvGetFlavor _ => true
  | EvHypervisors => export_hypervisors
  | EvGetProject _ | EvGetImage _ | EvGetVolume _ | EvNow => export_instances
  | EvWriteCsv filename _ _ =>
      export_instances && String.eqb filename instance_filename
      || export_hypervisors && String.eqb filename hypervisor_filename
  | _ => false
  end.

(** A written file has a data row, and every row has the header's columns. *)
Definition well_formed_write (ev : event) : Prop :=
  match ev with
  | EvWriteCsv _ header rows => rows ≠ [] ∧ Forall (λ r : row, r.*1 = header) rows
  | _ => True
  end.

(** Both together: what one event of the report builder must look like. *)
Definition report_allows (export_instances export_hypervisors : bool)
    (instance_filename hypervisor_filename : string) (ev : event) : Prop :=
  report_event export_instances export_hypervisors
    instance_filename hypervisor_filename ev = true
  ∧ well_formed_write ev.

Definition instance_columns : list string :=
  ["ID"; "Name"; "Status"; "Power State"; "VM State"; "Project Name";
   "Availability Zone"; "Hypervisor Hostname"; "Image Name"; "Flavor Name";
   "VCPUs"; "RAM (MB)"; "Disk (GB)"; "Uptime (s)"; "Created At"; "Public IP";
   "Network IPs"; "Attached Volumes"; "Metadata"].

Definition hypervisor_columns : list string :=
  ["ID"; "Hostname"; "Hypervisor Type"; "State"; "Status"; "Physical CPUs";
   "Physical CPUs Used"; "Physical CPU Usage (%)"; "Allocated VCPUs";
   "Allocated CPU (%)"; "CPU Overcommit Ratio"; "Physical RAM Total (MB)";
   "Physical RAM Used (MB)"; "Physical RAM Usage (%)"; "Allocated RAM (MB)";
   "Allocated RAM (%)"; "Memory Overcommit Ratio"; "Disk Total (GB)";
   "Disk Used (GB)"; "Disk Usage (%)"; "Running VMs"; "Active Instances";
   "Host IP"; "CPU Overcommitted"; "Memory Overcommitted"].

(** What the "Attached Volumes" column says about one volume. *)
Definition volume_text (conn : connection) (vol : gmap string string) : string :=
  match vol !! "id" with
  | Some vol_id =>
      match get_volume conn vol_id with
      | Ok v =>
          "ID:" +:+ Volume.id v +:+ ", Name:" +:+ Volume.name v
          +:+ ", Size:" +:+ Volume.size v +:+ "GB"
      | Raise e => "ID:" +:+ vol_id +:+ ", Details: Error - " +:+ exn_str e
      end
  | None => ""
  end.

(** Events that read the environment, the file system or the terminal. *)
Definition is_local_read (ev : event) : bool :=
  match ev with
  | EvGetenv _ | EvPathExists _ | EvConfigRead _ | EvInput _ | EvGetpass _ => true
  | _ => false
  end.

(** What resolution has settled once a record is at hand: the gate and the
    connection attempt. *)
Definition after_resolution (w : world) (r : auth_dict) : IO connection :=
  if decide (Forall (present_nonempty r) declared_order)
  then connect_and_authorize w (set_defaults r)
  else raise (validation_error r).

Module Cli.

(** [python os_info.py --auth-method args --auth-url ... --username ...
    --password ... --project-name ...] *)
Definition with_flags : Namespace.t :=
  {| Namespace.auth_method := "args";
     Namespace.config_file := None;
     Namespace.auth_url := Some "https://keystone.example.com:5000/v3";
     Namespace.username := Some "testuser";
     Namespace.password := Some "testpass";
     Namespace.project_name := Some "testproject";
     Namespace.user_domain_name := Some "default";
     Namespace.project_domain_name := Some "default";
     Namespace.region_name := None;
     Namespace.interface := Some "public";
     Namespace.instances_file := "openstack_instances.csv";
     Namespace.hypervisors_file := "openstack_hypervisors.csv";
     Namespace.export_instances := true;
     Namespace.export_hypervisors := true;
     Namespace.instances_only := false;
     Namespace.hypervisors_only := false |}.

(** The same with [--instances-only --hypervisors-only]. *)
Definition both_shortcuts : Namespace.t :=
  {| Namespace.auth_method := "args";
     Namespace.config_file := None;
     Namespace.auth_url := Some "https://keystone.example.com:5000/v3";
     Namespace.username := Some "testuser";
     Namespace.password := Some "testpass";
     Namespace.project_name := Some "testproject";
     Namespace.user_domain_name := Some "default";
     Namespace.project_domain_name := Some "default";
     Namespace.region_name := None;
     Namespace.interface := Some "public";
     Namespace.instances_file := "openstack_instances.csv";
     Namespace.hypervisors_file := "openstack_hypervisors.csv";
     Namespace.export_instances := true;
     Namespace.export_hypervisors := true;
     Namespace.instances_only := true;
     Namespace.hypervisors_only := true |}.

(** The same with [--no-export-instances --no-export-hypervisors]. *)
Definition nothing_to_export : Namespace.t :=
  {| Namespace.auth_method := "args";
     Namespace.config_file := None;
     Namespace.auth_url := Some "https://keystone.example.com:5000/v3";
     Namespace.username := Some "testuser";
     Namespace.password := Some "testpass";
     Namespace.project_name := Some "testproject";
     Namespace.user_domain_name := Some "default";
     Namespace.project_domain_name := Some "default";
     Namespace.region_name := None;
     Namespace.interface := Some "public";
     Namespace.instances_file := "openstack_instances.csv";
     Namespace.hypervisors_file := "openstack_hypervisors.csv";
     Namespace.export_instances := false;
     Namespace.export_hypervisors := false;
     Namespace.instances_only := false;
     Namespace.hypervisors_only := false |}.

End Cli.

(** Lines 537-566 of the entry block: the connection the command line asks
    for. *)
Definition cli_connect (w : world) (args : Namespace.t) : IO connection :=
  if String.eqb (Namespace.auth_method args) "args" then
    setup_openstack_connection w "args" None (auth_kwargs_of args)
  else
    setup_openstack_connection w (Namespace.auth_method args)
      (Namespace.config_file args) ∅.

(** The report the command line asks for, on an established connection. *)
Definition cli_report (w : world) (args : Namespace.t) (conn : connection)
    : IO unit :=
  get_openstack_info_and_export_csv w (Namespace.instances_file args)
    (Namespace.hypervisors_file args) (Some conn)
    (export_toggles args).1 (export_toggles args).2.


Definition known_methods : list string :=
  ["auto"; "env"; "config"; "interactive"; "args"].

Definition is_write (ev : event) : bool :=
  match ev with EvWriteCsv _ _ _ => true | _ => false end.

(** A cloud with nothing in it. *)
Definition empty_cloud : connection :=
  {| authorize := Ok ();
     servers := Ok [];
     hypervisors := Ok (PyGenerator []);
     get_project := λ _, Raise (Example.not_found "Project");
     get_flavor := λ _, Raise (Example.not_found "Flavor");
     get_image := λ _, Raise (Example.not_found "Image");
     get_volume := λ _, Raise (Example.not_found "Volume") |}.

(** A command-line option was given, with a non-empty value. *)
Definition flag_given (flag : option string) : Prop :=
  ∃ v, flag = Some v ∧ v ≠ "".

(** Every run of the computation appends only events that satisfy [P]. *)
Definition emits {A} (P : event → Prop) (m : IO A) : Prop :=
  ∀ s r s', m s = (r, s') → ∃ evs, trace s' = trace s ++ evs ∧ Forall P evs.

(** What a connect call may be given: a complete record with the three
    optional keys present. *)
Definition connects_safely (ev : event) : Prop :=
  match ev with
  | EvConnect auth_config =>
      Forall (present_nonempty auth_config) declared_order
      ∧ Forall (λ key, is_Some (auth_config !! key)) defaulted_keys
  | _ => True
  end.

Definition is_connect (ev : event) : bool :=
  match ev with EvConnect _ => true | _ => false end.

(** * Properties *)

Lemma not_get_spec r field : not_get r field = true ↔ absent_or_empty r field.
Proof.
  unfold not_get, absent_or_empty.
  destruct (r !! field) as [[|c v]|]; simpl; split; intros H; auto;
    try discriminate; destruct H; congruence.
Qed.

Lemma not_get_present r field : not_get r field = false ↔ present_nonempty r field.
Proof.
  unfold not_get, present_nonempty.
  destruct (r !! field) as [[|c v]|]; simpl; split; intros H; auto;
    try discriminate; try (destruct H as (v' & H1 & H2); congruence).
  eexists; split; [reflexivity | discriminate].
Qed.

Lemma filter_not_get r l :
  List.filter (not_get r) l = filter (absent_or_empty r) l.
Proof.
  induction l as [|f l IH]; [reflexivity|].
  simpl. rewrite filter_cons, IH.
  destruct (not_get r f) eqn:E.
  - apply not_get_spec in E. rewrite decide_True by done. done.
  - rewrite decide_False; [done|]. intros H. apply not_get_spec in H. congruence.
Qed.

Lemma filter_not_get_nil r l :
  List.filter (not_get r) l = [] ↔ Forall (present_nonempty r) l.
Proof.
  induction l as [|f l IH]; simpl.
  - split; auto.
  - destruct (not_get r f) eqn:E.
    + split; [discriminate|]. intros H. inversion H as [|? ? H1 H2]; subst.
      apply not_get_present in H1. congruence.
    + rewrite IH. split.
      * intros H. constructor; [by apply not_get_present | done].
      * intros H. by inversion H.
Qed.

(** The validator as a function of the record. *)
Lemma validate_auth_config_unfold (r : auth_dict) :
  validate_auth_config r
  = (bool_decide (Forall (present_nonempty r) declared_order),
     filter (absent_or_empty r) declared_order).
Proof.
  unfold validate_auth_config. change required_fields with declared_order.
  rewrite <- filter_not_get. f_equal.
  apply bool_decide_ext. rewrite <- filter_not_get_nil.
  destruct (List.filter _ _); cbn; split; intros H; done.
Qed.

(** C3. [validate_auth_config] answers [(True, [])] exactly when each of
    auth_url, username, password and project_name is present and non-empty;
    otherwise it answers [False] together with the required field names that
    are absent or empty, in the declared order. *)
Theorem validate_auth_config_spec (r : auth_dict) :
  (validate_auth_config r = (true, []) ↔ Forall (present_nonempty r) declared_order)
  ∧ ((validate_auth_config r).1 = false ↔ ¬ Forall (present_nonempty r) declared_order)
  ∧ (validate_auth_config r).2 = filter (absent_or_empty r) declared_order.
Proof.
  rewrite validate_auth_config_unfold. cbn [fst snd].
  split_and!; [| | reflexivity].
  - split.
    + intros [= H _]. by apply bool_decide_eq_true in H.
    + intros H. rewrite bool_decide_eq_true_2 by done. f_equal.
      rewrite <- filter_not_get. by apply filter_not_get_nil.
  - apply bool_decide_eq_false.
Qed.

Lemma setdefault_lookup key dflt (d : auth_dict) k :
  setdefault key dflt d !! k =
    if decide (k = key) then Some (default dflt (d !! key)) else d !! k.
Proof.
  unfold setdefault. destruct (d !! key) as [v|] eqn:E.
  - case_decide; subst; [by rewrite E | done].
  - case_decide; subst; [by rewrite lookup_insert_eq | by rewrite lookup_insert_ne].
Qed.

Lemma set_defaults_lookup (r : auth_dict) k :
  set_defaults r !! k =
    if decide (k = "user_domain_name") then Some (default "default" (r !! k))
    else if decide (k = "project_domain_name") then Some (default "default" (r !! k))
    else if decide (k = "interface") then Some (default "public" (r !! k))
    else r !! k.
Proof.
  unfold set_defaults. rewrite !setdefault_lookup.
  repeat case_decide; subst; try done.
  all: rewrite !setdefault_lookup; repeat case_decide; try done.
Qed.

(** C10. The three [setdefault] calls never overwrite: every value already in
    the record stays, keys other than user_domain_name, project_domain_name
    and interface are untouched, and each of the three is filled with
    "default", "default", "public" only when absent. *)
Theorem set_defaults_frame (r : auth_dict) :
  (∀ k v, r !! k = Some v → set_defaults r !! k = Some v)
  ∧ (∀ k, k ∉ defaulted_keys → set_defaults r !! k = r !! k)
  ∧ (r !! "user_domain_name" = None →
     set_defaults r !! "user_domain_name" = Some "default")
  ∧ (r !! "project_domain_name" = None →
     set_defaults r !! "project_domain_name" = Some "default")
  ∧ (r !! "interface" = None → set_defaults r !! "interface" = Some "public").
Proof.
  split_and!.
  - intros k v H. rewrite set_defaults_lookup, H. by repeat case_decide.
  - intros k H. rewrite set_defaults_lookup.
    unfold defaulted_keys in H. repeat case_decide; subst; try done; set_solver.
  - intros H. by rewrite set_defaults_lookup, H.
  - intros H. by rewrite set_defaults_lookup, H.
  - intros H. by rewrite set_defaults_lookup, H.
Qed.

Ltac io_unfold :=
  unfold mbind, io_bind, mret, io_ret, print, emit, lift, raise, try_except,
    input, getpass in *.

(** C8. Interactive resolution: empty input for user_domain_name,
    project_domain_name and interface yields "default", "default" and
    "public"; empty input for region_name leaves the record without a
    region_name key. *)
Theorem interactive_empty_input_defaults
    (auth_url username project_name user_domain project_domain region interface
       password : string)
    (more_input more_tty : list string) (tr : list event) :
  ∃ r s',
    get_auth_interactive
      (IoState (auth_url :: username :: project_name :: user_domain
                :: project_domain :: region :: interface :: more_input)
         (password :: more_tty) tr) = (Ok r, s')
    ∧ (user_domain = "" → r !! "user_domain_name" = Some "default")
    ∧ (project_domain = "" → r !! "project_domain_name" = Some "default")
    ∧ (interface = "" → r !! "interface" = Some "public")
    ∧ (region = "" → r !! "region_name" = None)
    ∧ r !! "auth_url" = Some (PyStr.strip auth_url)
    ∧ r !! "username" = Some (PyStr.strip username)
    ∧ r !! "password" = Some password
    ∧ r !! "project_name" = Some (PyStr.strip project_name).
Proof.
  eexists _, _. split; [unfold get_auth_interactive; io_unfold; cbn; reflexivity|].
  split_and!; try (intros ->); cbn;
    repeat match goal with
           | |- context [if ?b then _ else _] => destruct b
           end; by simplify_map_eq.
Qed.


Lemma after_nil s : after s [] = s.
Proof. destruct s. unfold after. cbn. by rewrite app_nil_r. Qed.

Lemma after_after s evs1 evs2 : after (after s evs1) evs2 = after s (evs1 ++ evs2).
Proof. unfold after. cbn. by rewrite app_assoc. Qed.

Lemma bind_ok {A B} (m : IO A) (f : A → IO B) s a s' :
  m s = (Ok a, s') → (m ≫= f) s = f a s'.
Proof. intros H. unfold mbind, io_bind. by rewrite H. Qed.

Lemma bind_raise {A B} (m : IO A) (f : A → IO B) s e s' :
  m s = (Raise e, s') → (m ≫= f) s = (Raise e, s').
Proof. intros H. unfold mbind, io_bind. by rewrite H. Qed.

Lemma bind_emit {B} ev (f : unit → IO B) s : (emit ev ≫= f) s = f () (after s [ev]).
Proof. reflexivity. Qed.

Lemma bind_print {B} line (f : unit → IO B) s :
  (print line ≫= f) s = f () (after s [EvPrint line]).
Proof. reflexivity. Qed.

Section allocation.
Context (conn : connection) (hypervisor : Hypervisor.t).

Lemma on_hypervisor_spec server :
  on_hypervisor hypervisor server = bool_decide (runs_on hypervisor server).
Proof.
  unfold on_hypervisor, runs_on, ACTIVE_STATES.
  apply Bool.eq_iff_eq_true.
  rewrite andb_true_iff, !bool_decide_eq_true.
  rewrite !elem_of_cons, elem_of_nil. tauto.
Qed.

(** One turn of the loop adds the resolved flavor of a matching instance. *)
Lemma count_server_spec acc server s :
  ∃ evs,
    count_server conn hypervisor acc server s =
      (Ok (if decide (runs_on hypervisor server)
           then Allocation (allocated_vcpus acc + flavor_vcpus conn server)
                  (allocated_memory acc + flavor_ram conn server)
                  (instances_on_hypervisor acc ++ [server])
           else acc),
       after s evs).
Proof.
  unfold count_server. rewrite on_hypervisor_spec.
  unfold flavor_vcpus, flavor_ram, resolved_flavor.
  case_decide as Hm.
  2:{ rewrite bool_decide_eq_false_2 by done. exists []. by rewrite after_nil. }
  rewrite bool_decide_eq_true_2 by done.
  destruct (server_has server "flavor"); cbn [andb].
  2:{ exists []. rewrite after_nil, !Z.add_0_r. done. }
  destruct (Server.flavor server) as [d|]; cbn [opt_dict_truthy].
  2:{ exists []. rewrite after_nil, !Z.add_0_r. done. }
  destruct (dict_truthy d) eqn:Ht.
  2:{ exists []. rewrite after_nil.
      unfold dict_truthy in Ht. apply negb_false_iff, bool_decide_eq_true in Ht.
      subst d. rewrite lookup_empty, !Z.add_0_r. done. }
  io_unfold. unfold subscript_id, dict_getitem. cbn.
  destruct (d !! "id") as [flavor_id|]; cbn.
  2:{ eexists [_]. rewrite !Z.add_0_r. reflexivity. }
  destruct (get_flavor conn flavor_id) as [[flavor|]|e]; cbn.
  - eexists [_]. reflexivity.
  - eexists [_]. rewrite !Z.add_0_r. reflexivity.
  - eexists [_; _]. rewrite !Z.add_0_r. unfold after. cbn.
    rewrite <- app_assoc. reflexivity.
Qed.

(** The whole loop: the sums over the matching instances. *)
Lemma count_servers_spec all_servers acc s :
  ∃ acc' evs,
    for_fold all_servers acc (count_server conn hypervisor) s = (Ok acc', after s evs)
    ∧ allocated_vcpus acc' =
        allocated_vcpus acc
        + sumZ (flavor_vcpus conn <$> filter (runs_on hypervisor) all_servers)
    ∧ allocated_memory acc' =
        allocated_memory acc
        + sumZ (flavor_ram conn <$> filter (runs_on hypervisor) all_servers)
    ∧ instances_on_hypervisor acc' =
        instances_on_hypervisor acc ++ filter (runs_on hypervisor) all_servers.
Proof.
  revert acc s. induction all_servers as [|server rest IH]; intros acc s.
  - exists acc, []. rewrite after_nil. cbn. rewrite !Z.add_0_r, app_nil_r. done.
  - destruct (count_server_spec acc server s) as [evs1 H1].
    cbn [for_fold]. unfold mbind at 1, io_bind at 1. rewrite H1.
    match goal with |- context [for_fold rest ?a _ ?s'] =>
      destruct (IH a s') as (acc' & evs2 & H2 & Hv & Hm & Hi) end.
    exists acc', (evs1 ++ evs2). rewrite H2, after_after.
    split; [done|]. rewrite Hv, Hm, Hi. rewrite filter_cons.
    case_decide; unfold sumZ; cbn; rewrite ?app_nil_r; split_and!;
      try lia; try done.
    by rewrite <- app_assoc.
Qed.

End allocation.

Lemma truediv_raises a b e :
  PyNum.truediv a b = Raise e → 0 < b → exn_cls e = "OverflowError".
Proof.
  unfold PyNum.truediv. intros H Hb.
  destruct (b =? 0) eqn:Eb; [lia|].
  destruct (a =? 0); [discriminate|].
  destruct (SFdiv _ _ _ _); inversion H; reflexivity.
Qed.

Lemma ratio_or_zero_raises n d e :
  PyNum.ratio_or_zero n d = Raise e → exn_cls e = "OverflowError".
Proof.
  unfold PyNum.ratio_or_zero. destruct (0 <? d) eqn:Ed; [|discriminate].
  destruct (PyNum.truediv n d) eqn:Et; [discriminate|].
  intros [= <-]. eapply truediv_raises; [done | lia].
Qed.

Lemma percent_or_zero_raises n d e :
  PyNum.percent_or_zero n d = Raise e → exn_cls e = "OverflowError".
Proof.
  unfold PyNum.percent_or_zero. destruct (0 <? d) eqn:Ed; [|discriminate].
  destruct (PyNum.truediv n d) eqn:Et; [discriminate|].
  intros [= <-]. eapply truediv_raises; [done | lia].
Qed.

Lemma ratio_or_zero_0 n : PyNum.ratio_or_zero n 0 = Ok (PInt 0).
Proof. reflexivity. Qed.

Lemma percent_or_zero_0 n : PyNum.percent_or_zero n 0 = Ok (PInt 0).
Proof. reflexivity. Qed.


Lemma disk_usage_raises hypervisor e :
  disk_usage_of hypervisor = Raise e → exn_cls e = "OverflowError".
Proof.
  unfold disk_usage_of. destruct (0 <? _) eqn:Ed; [|discriminate].
  destruct (PyNum.truediv _ _) eqn:Et; [discriminate|].
  intros [= <-]. eapply truediv_raises; [done | lia].
Qed.

(** What a successfully built row holds in its derived columns. *)
Lemma hypervisor_details_ok hypervisor acc r :
  hypervisor_details hypervisor acc = Ok r →
  ∃ cpu_ratio memory_ratio cpu_usage memory_usage cpu_pct memory_pct disk_usage,
    PyNum.ratio_or_zero (allocated_vcpus acc) (Hypervisor.vcpus hypervisor)
      = Ok cpu_ratio
    ∧ PyNum.ratio_or_zero (allocated_memory acc) (Hypervisor.memory_size hypervisor)
      = Ok memory_ratio
    ∧ PyNum.percent_or_zero (Hypervisor.vcpus_used hypervisor)
        (Hypervisor.vcpus hypervisor) = Ok cpu_usage
    ∧ PyNum.percent_or_zero (Hypervisor.memory_used hypervisor)
        (Hypervisor.memory_size hypervisor) = Ok memory_usage
    ∧ PyNum.percent_or_zero (allocated_vcpus acc) (Hypervisor.vcpus hypervisor)
      = Ok cpu_pct
    ∧ PyNum.percent_or_zero (allocated_memory acc)
        (Hypervisor.memory_size hypervisor) = Ok memory_pct
    ∧ disk_usage_of hypervisor = Ok disk_usage
    ∧ row_get r "Allocated VCPUs" = Some (PInt (allocated_vcpus acc))
    ∧ row_get r "Allocated RAM (MB)" = Some (PInt (allocated_memory acc))
    ∧ row_get r "CPU Overcommit Ratio" = Some (PyNum.round2 cpu_ratio)
    ∧ row_get r "Memory Overcommit Ratio" = Some (PyNum.round2 memory_ratio)
    ∧ row_get r "Physical CPU Usage (%)" = Some (PyNum.round2 cpu_usage)
    ∧ row_get r "Physical RAM Usage (%)" = Some (PyNum.round2 memory_usage)
    ∧ row_get r "Allocated CPU (%)" = Some (PyNum.round2 cpu_pct)
    ∧ row_get r "Allocated RAM (%)" = Some (PyNum.round2 memory_pct)
    ∧ row_get r "Disk Usage (%)" = Some disk_usage
    ∧ row_get r "CPU Overcommitted" = Some (yes_no (PyNum.gt_one cpu_ratio))
    ∧ row_get r "Memory Overcommitted" = Some (yes_no (PyNum.gt_one memory_ratio)).
Proof.
  unfold hypervisor_details.
  fold (disk_usage_of hypervisor).
  destruct (PyNum.ratio_or_zero (allocated_vcpus acc) _) as [cpu_ratio|]; [|discriminate].
  destruct (PyNum.ratio_or_zero (allocated_memory acc) _) as [memory_ratio|]; [|discriminate].
  destruct (PyNum.percent_or_zero (Hypervisor.vcpus_used hypervisor) _)
    as [cpu_usage|]; [|discriminate].
  destruct (PyNum.percent_or_zero (Hypervisor.memory_used hypervisor) _)
    as [memory_usage|]; [|discriminate].
  destruct (PyNum.percent_or_zero (allocated_vcpus acc) _) as [cpu_pct|]; [|discriminate].
  destruct (PyNum.percent_or_zero (allocated_memory acc) _) as [memory_pct|]; [|discriminate].
  destruct (disk_usage_of hypervisor) as [disk_usage|]; [|discriminate].
  cbn. intros [= <-].
  exists cpu_ratio, memory_ratio, cpu_usage, memory_usage, cpu_pct, memory_pct, disk_usage.
  split_and!; reflexivity.
Qed.

Lemma hypervisor_details_raises hypervisor acc e :
  hypervisor_details hypervisor acc = Raise e → exn_cls e = "OverflowError".
Proof.
  unfold hypervisor_details.
  fold (disk_usage_of hypervisor).
  repeat match goal with
  | |- context [mbind _ ?m] =>
      lazymatch m with
      | disk_usage_of _ =>
          let E := fresh in destruct m eqn:E;
          [| cbn; intros [= <-]; by eapply disk_usage_raises]
      | PyNum.ratio_or_zero _ _ =>
          let E := fresh in destruct m eqn:E;
          [| cbn; intros [= <-]; by eapply ratio_or_zero_raises]
      | PyNum.percent_or_zero _ _ =>
          let E := fresh in destruct m eqn:E;
          [| cbn; intros [= <-]; by eapply percent_or_zero_raises]
      end; cbn [mbind result_bind]
  end.
  discriminate.
Qed.

(** Processing one hypervisor: the loop cannot fail, so the outcome is that
    of building the row from the sums. *)
Lemma hypervisor_row_spec conn all_servers hypervisor s :
  ∃ acc evs,
    hypervisor_row conn all_servers hypervisor s
      = (hypervisor_details hypervisor acc, after s evs)
    ∧ allocated_vcpus acc
        = sumZ (flavor_vcpus conn <$> filter (runs_on hypervisor) all_servers)
    ∧ allocated_memory acc
        = sumZ (flavor_ram conn <$> filter (runs_on hypervisor) all_servers)
    ∧ instances_on_hypervisor acc = filter (runs_on hypervisor) all_servers.
Proof.
  unfold hypervisor_row.
  set (s1 := after s [EvPrint ("Processing hypervisor: " +:+ Hypervisor.name hypervisor)]).
  destruct (count_servers_spec conn hypervisor all_servers (Allocation 0 0 []) s1)
    as (acc & evs & Hrun & Hv & Hm & Hi).
  exists acc, (EvPrint ("Processing hypervisor: " +:+ Hypervisor.name hypervisor) :: evs).
  split; [|done].
  rewrite bind_print. fold s1. erewrite bind_ok by exact Hrun.
  unfold lift, s1. rewrite after_after. reflexivity.
Qed.

Lemma yes_no_yes b : Some (yes_no b) = Some (PStr "Yes") ↔ b = true.
Proof. destruct b; cbn; split; intros H; try done; discriminate. Qed.

Lemma yes_no_no b : Some (yes_no b) = Some (PStr "No") ↔ b = false.
Proof. destruct b; cbn; split; intros H; try done; discriminate. Qed.

Lemma ratio_or_zero_inv n d v :
  PyNum.ratio_or_zero n d = Ok v →
  if 0 <? d then ∃ q, PyNum.truediv n d = Ok q ∧ v = PFloat q else v = PInt 0.
Proof.
  unfold PyNum.ratio_or_zero. destruct (0 <? d).
  - destruct (PyNum.truediv n d) as [q|]; [|discriminate].
    intros [= <-]. by exists q.
  - by intros [= <-].
Qed.


(** C1 (amended). For every hypervisor row the allocated figures are the sums
    of the resolved flavors' vcpus and ram over the fetched instances that run
    on the host and are ACTIVE, PAUSED or SUSPENDED; each overcommit ratio is
    allocated / capacity when the capacity is positive and the integer 0
    otherwise; the row shows the ratio rounded to two decimals; the flag is
    "Yes" exactly when the unrounded ratio exceeds 1.0.  In the example
    (16 vcpus, 32768 MB, two active instances of 2 vcpus and 2048 MB) the
    ratios are 0.25 and 0.125, and the row shows 4, 4096, 0.25, 0.12, "No",
    "No". *)
Theorem hypervisor_allocation_and_overcommit :
  (∀ conn all_servers hypervisor s r s',
     hypervisor_row conn all_servers hypervisor s = (Ok r, s') →
     overcommit_figures conn all_servers hypervisor r)
  ∧ (∃ r s',
       hypervisor_row Example.conn [Example.test_server; Example.test_server]
         Example.compute_01 idle = (Ok r, s')
       ∧ PyNum.truediv 4 16 = Ok (PyNum.decimal 25 2)
       ∧ PyNum.truediv 4096 32768 = Ok (PyNum.decimal 125 3)
       ∧ row_get r "Allocated VCPUs" = Some (PInt 4)
       ∧ row_get r "Allocated RAM (MB)" = Some (PInt 4096)
       ∧ row_get r "CPU Overcommit Ratio" = Some (PFloat (PyNum.decimal 25 2))
       ∧ row_get r "Memory Overcommit Ratio" = Some (PFloat (PyNum.decimal 12 2))
       ∧ row_get r "CPU Overcommitted" = Some (PStr "No")
       ∧ row_get r "Memory Overcommitted" = Some (PStr "No")).
Proof.
  split.
  - intros conn all_servers hypervisor s r s' Hrow.
    destruct (hypervisor_row_spec conn all_servers hypervisor s)
      as (acc & evs & Hrun & Hv & Hm & _).
    rewrite Hrun in Hrow. injection Hrow as Hd _.
    apply hypervisor_details_ok in Hd
      as (cpu_ratio & memory_ratio & ? & ? & ? & ? & ? & Hc & Hr & _ & _ & _ & _ & _
          & Hav & Ham & Hcr & Hmr & _ & _ & _ & _ & _ & Hcf & Hmf).
    rewrite Hv in Hc, Hav. rewrite Hm in Hr, Ham.
    exists cpu_ratio, memory_ratio.
    split_and!; try done.
    + by apply ratio_or_zero_inv.
    + by apply ratio_or_zero_inv.
    + rewrite Hcf. apply yes_no_yes.
    + rewrite Hcf. apply yes_no_no.
    + rewrite Hmf. apply yes_no_yes.
    + rewrite Hmf. apply yes_no_no.
  - eexists _, _. split; [vm_compute; reflexivity|].
    split_and!; vm_compute; reflexivity.
Qed.

(** C1, as stated, fails on its own example: the row does not show 0.125
    for the memory overcommit ratio. *)
Lemma example_row_shows_rounded_memory_ratio :
  ∃ r s',
    hypervisor_row Example.conn [Example.test_server; Example.test_server]
      Example.compute_01 idle = (Ok r, s')
    ∧ row_get r "Memory Overcommit Ratio" ≠ Some (PFloat (PyNum.decimal 125 3)).
Proof.
  eexists _, _. split; [vm_compute; reflexivity|].
  vm_compute. discriminate.
Qed.

Lemma example_overcommit_figures :
  overcommit_figures Example.conn [Example.test_server; Example.test_server]
    Example.compute_01
    (match (hypervisor_row Example.conn [Example.test_server; Example.test_server]
              Example.compute_01 idle).1 with
     | Ok r => r
     | Raise _ => []
     end).
Proof.
  eapply (proj1 hypervisor_allocation_and_overcommit _ _ _ idle).
  vm_compute. reflexivity.
Defined.

Lemma exn_cls_neq e cls msg :
  exn_cls e = "OverflowError" → cls ≠ "OverflowError" → e ≠ Exception cls msg.
Proof. intros H Hne ->. cbn in H. congruence. Qed.

(** C2. Processing a hypervisor never raises a division error; when the
    capacity of a dimension is 0, every percentage and ratio of that dimension
    in the row is the integer 0; a host without any capacity still gets its
    row. *)
Theorem zero_capacity_yields_zero (conn : connection) (all_servers : list Server.t)
    (hypervisor : Hypervisor.t) (s : io_state) :
  (∀ msg s',
     hypervisor_row conn all_servers hypervisor s
       ≠ (Raise (Exception "ZeroDivisionError" msg), s'))
  ∧ (∀ r s',
       hypervisor_row conn all_servers hypervisor s = (Ok r, s') →
       (Hypervisor.vcpus hypervisor = 0 →
        row_get r "Physical CPU Usage (%)" = Some (PInt 0)
        ∧ row_get r "Allocated CPU (%)" = Some (PInt 0)
        ∧ row_get r "CPU Overcommit Ratio" = Some (PInt 0))
       ∧ (Hypervisor.memory_size hypervisor = 0 →
          row_get r "Physical RAM Usage (%)" = Some (PInt 0)
          ∧ row_get r "Allocated RAM (%)" = Some (PInt 0)
          ∧ row_get r "Memory Overcommit Ratio" = Some (PInt 0))
       ∧ (Hypervisor.local_disk_size hypervisor = 0 →
          row_get r "Disk Usage (%)" = Some (PInt 0)))
  ∧ (Hypervisor.vcpus hypervisor = 0 →
     Hypervisor.memory_size hypervisor = 0 →
     Hypervisor.local_disk_size hypervisor = 0 →
     ∃ r s', hypervisor_row conn all_servers hypervisor s = (Ok r, s')).
Proof.
  destruct (hypervisor_row_spec conn all_servers hypervisor s)
    as (acc & evs & Hrun & _).
  rewrite Hrun. split_and!.
  - intros msg s' [= Hd _].
    apply hypervisor_details_raises in Hd. discriminate.
  - intros r s' [= Hd _].
    apply hypervisor_details_ok in Hd
      as (? & ? & ? & ? & ? & ? & ? & Hc & Hr & Hcu & Hmu & Hcp & Hmp & Hdu
          & _ & _ & Hcr & Hmr & Hpcu & Hpmu & Hacp & Hamp & Hdisk & _).
    split_and!.
    + intros E. rewrite E in *.
      rewrite ratio_or_zero_0 in Hc. rewrite percent_or_zero_0 in Hcu, Hcp.
      injection Hc as <-. injection Hcu as <-. injection Hcp as <-. done.
    + intros E. rewrite E in *.
      rewrite ratio_or_zero_0 in Hr. rewrite percent_or_zero_0 in Hmu, Hmp.
      injection Hr as <-. injection Hmu as <-. injection Hmp as <-. done.
    + intros E. unfold disk_usage_of in Hdu. rewrite E in Hdu.
      cbn in Hdu. injection Hdu as <-. done.
  - intros E1 E2 E3. unfold hypervisor_details.
    rewrite E1, E2, E3. do 2 eexists. cbn. reflexivity.
Qed.

Lemma empty_host_row_has_zeros :
  let r := match (hypervisor_row Example.conn
                    [Example.test_server; Example.test_server]
                    Example.empty_host idle).1 with
           | Ok r => r
           | Raise _ => []
           end in
  row_get r "Allocated VCPUs" = Some (PInt 4)
  ∧ row_get r "CPU Overcommit Ratio" = Some (PInt 0)
  ∧ row_get r "Memory Overcommit Ratio" = Some (PInt 0)
  ∧ row_get r "Disk Usage (%)" = Some (PInt 0).
Proof.
  destruct (zero_capacity_yields_zero Example.conn
              [Example.test_server; Example.test_server]
              Example.empty_host idle) as (_ & H & _).
  edestruct H as (Hc & Hm & Hd); [vm_compute; reflexivity|].
  split_and!; [vm_compute; reflexivity | apply Hc | apply Hm | apply Hd]; reflexivity.
Defined.

(** *** Computations that do not read input *)

Lemma hushed_intro {A} (m : IO A) r evs :
  (∀ s, m s = (r, after s evs)) → Forall (λ ev, is_prompt ev = false) evs → hushed m.
Proof. intros H1 H2. by exists r, evs. Qed.

Lemma hushed_ret {A} (a : A) : hushed (mret a).
Proof.
  apply (hushed_intro _ (Ok a) []); [|constructor].
  intros s. by rewrite after_nil.
Qed.

Lemma hushed_raise {A} e : hushed (raise (A:=A) e).
Proof.
  apply (hushed_intro _ (Raise e) []); [|constructor].
  intros s. by rewrite after_nil.
Qed.

Lemma hushed_lift {A} (r : result A) : hushed (lift r).
Proof.
  apply (hushed_intro _ r []); [|constructor].
  intros s. by rewrite after_nil.
Qed.

Lemma hushed_emit ev : is_prompt ev = false → hushed (emit ev).
Proof.
  intros H. apply (hushed_intro _ (Ok ()) [ev]); [done|].
  by repeat constructor.
Qed.

Lemma hushed_print line : hushed (print line).
Proof. by apply hushed_emit. Qed.

Lemma hushed_bind {A B} (m : IO A) (f : A → IO B) :
  hushed m → (∀ a, hushed (f a)) → hushed (m ≫= f).
Proof.
  intros (r & evs & Hm & Hq) Hf. destruct r as [a|e].
  - destruct (Hf a) as (r2 & evs2 & Hfa & Hq2).
    apply (hushed_intro _ r2 (evs ++ evs2)); [|by apply Forall_app].
    intros s. erewrite bind_ok by apply Hm. by rewrite Hfa, after_after.
  - apply (hushed_intro _ (Raise e) evs); [|done].
    intros s. by erewrite bind_raise by apply Hm.
Qed.

Lemma hushed_try_except {A} (body : IO A) (handler : exn → IO A) :
  hushed body → (∀ e, hushed (handler e)) → hushed (try_except body handler).
Proof.
  intros (r & evs & Hm & Hq) Hh. destruct r as [a|e].
  - apply (hushed_intro _ (Ok a) evs); [|done].
    intros s. unfold try_except. by rewrite Hm.
  - destruct (Hh e) as (r2 & evs2 & Hhe & Hq2).
    apply (hushed_intro _ r2 (evs ++ evs2)); [|by apply Forall_app].
    intros s. unfold try_except. by rewrite Hm, Hhe, after_after.
Qed.

Lemma hushed_for_fold {A B} (xs : list A) (acc : B) (body : B → A → IO B) :
  (∀ acc x, hushed (body acc x)) → hushed (for_fold xs acc body).
Proof.
  intros Hb. revert acc. induction xs as [|x xs IH]; intros acc; cbn [for_fold].
  - apply hushed_ret.
  - apply hushed_bind; [apply Hb | intros acc'; apply IH].
Qed.

(** A hushed computation is determined by its run from the idle state. *)
Lemma hushed_run {A} (m : IO A) s :
  hushed m → m s = ((m idle).1, after s (trace (m idle).2)).
Proof.
  intros (r & evs & Hm & _). rewrite !Hm. reflexivity.
Qed.

Lemma hushed_events {A} (m : IO A) :
  hushed m → Forall (λ ev, is_prompt ev = false) (trace (m idle).2).
Proof. intros (r & evs & Hm & Hq). by rewrite Hm. Qed.

Lemma hushed_config_read w path : hushed (config_read w path).
Proof.
  unfold config_read. apply hushed_bind; [by apply hushed_emit|]. intros _.
  destruct (fs w path); auto using hushed_ret, hushed_raise.
Qed.

Lemma hushed_load_config_file w path : hushed (load_config_file w path).
Proof.
  unfold load_config_file. apply hushed_try_except.
  - apply hushed_bind; [apply hushed_config_read|]. intros config.
    destruct (negb _); [apply hushed_raise|].
    apply hushed_bind; [|intros; apply hushed_ret].
    apply hushed_for_fold. intros acc [config_key param_key]. unfold copy_option.
    destruct (has_option _ _ _); [|apply hushed_ret].
    apply hushed_bind; [apply hushed_lift | intros; apply hushed_ret].
  - intros e. apply hushed_bind; [apply hushed_print | intros; apply hushed_ret].
Qed.

(** The loader never raises. *)
Lemma load_config_file_returns w path s :
  load_config_file w path s
    = (Ok (loaded_record w path), after s (load_events w path)).
Proof.
  rewrite (hushed_run _ s (hushed_load_config_file w path)).
  unfold loaded_record, load_events.
  destruct (load_config_file w path idle) as [[r|e] s'] eqn:E; [done|].
  exfalso. unfold load_config_file, try_except in E.
  match type of E with (let (_, _) := ?body in _) = _ =>
    destruct body as [[a|e'] s1] end; discriminate.
Qed.

(** *** The configuration file loader *)

Section loader.
Context (config : ConfigParser).

(** The loop over the recognized keys: either every present key is copied,
    or the first retrieval that fails ends it. *)
Lemma copy_options_spec (keys : list string) (acc : auth_dict) s :
  (∃ d,
     for_fold ((λ k, (k, k)) <$> keys) acc (copy_option config) s = (Ok d, s)
     ∧ (∀ k, k ∈ keys → has_option config "openstack" k = true →
             ∃ v, getitem config "openstack" k = Ok v ∧ d !! k = Some v)
     ∧ (∀ k, k ∉ keys ∨ has_option config "openstack" k = false →
             d !! k = acc !! k))
  ∨ (∃ k e,
       for_fold ((λ k, (k, k)) <$> keys) acc (copy_option config) s = (Raise e, s)
       ∧ k ∈ keys ∧ has_option config "openstack" k = true
       ∧ getitem config "openstack" k = Raise e).
Proof.
  revert acc. induction keys as [|k0 keys IH]; intros acc.
  { left. exists acc. split; [done|]. split; [|done].
    intros k Hk. by apply elem_of_nil in Hk. }
  cbn [fmap list_fmap for_fold].
  destruct (has_option config "openstack" k0) eqn:Ho.
  2:{ erewrite bind_ok by (unfold copy_option; rewrite Ho; reflexivity).
      destruct (IH acc) as [(d & Hrun & Hin & Hout) | (k & e & Hrun & Hk & Hh & Hg)].
      - left. exists d. split; [done|]. split.
        + intros k [->|Hk]%elem_of_cons Hh; [congruence | by apply Hin].
        + intros k [Hk|Hh]; apply Hout; [left | by right].
          intros Hk'. apply Hk. by right.
      - right. exists k, e. split_and!; try done. by right. }
  destruct (getitem config "openstack" k0) as [v0|e0] eqn:Hg0.
  2:{ right. exists k0, e0. split_and!; try done; [|by left].
      erewrite bind_raise; [done|]. unfold copy_option. rewrite Ho.
      erewrite bind_raise; [done|]. unfold lift. by rewrite Hg0. }
  erewrite bind_ok; cycle 1.
  { unfold copy_option. rewrite Ho.
    erewrite bind_ok; [reflexivity|]. unfold lift. by rewrite Hg0. }
  destruct (IH (<[k0 := v0]> acc))
    as [(d & Hrun & Hin & Hout) | (k & e & Hrun & Hk & Hh & Hg)].
  - left. exists d. split; [done|]. split.
    + intros k Hk Hh. destruct (decide (k ∈ keys)) as [Hk'|Hk']; [by apply Hin|].
      apply elem_of_cons in Hk as [->|Hk]; [|done].
      exists v0. split; [done|]. rewrite Hout by (by left).
      apply lookup_insert_eq.
    + intros k Hk. destruct (decide (k = k0)) as [->|Hne].
      { destruct Hk as [Hk|Hk]; [|congruence]. exfalso. apply Hk. by left. }
      rewrite Hout.
      * by rewrite lookup_insert_ne.
      * destruct Hk as [Hk|Hk]; [left | by right].
        intros Hk'. apply Hk. by right.
  - right. exists k, e. split_and!; try done. by right.
Qed.

End loader.

Lemma config_mapping_keys : config_mapping = (λ k, (k, k)) <$> recognized_keys.
Proof. reflexivity. Qed.

Lemma empty_has_no_openstack : contains configparser.empty "openstack" = false.
Proof. reflexivity. Qed.

Lemma config_read_run w path s :
  config_read w path s =
    (match fs w path with
     | Missing | Unreadable => Ok configparser.empty
     | Malformed e => Raise e
     | Parsed config => Ok config
     end, after s [EvConfigRead path]).
Proof. unfold config_read. rewrite bind_emit. by destruct (fs w path). Qed.

(** C6 (amended). The loader always returns, never raises, and never prompts.
    It returns [None] for a missing or unopenable file, a file the parser
    rejects, and a file without an [openstack] section.  With the section
    present it returns a record holding exactly the recognized keys the
    section offers, each with its retrieved value, unless retrieving one of
    them fails, in which case it returns [None] as well. *)
Theorem load_config_file_outcome (w : world) (path : string) (s : io_state) :
  ∃ r evs,
    load_config_file w path s = (Ok r, after s evs)
    ∧ Forall (λ ev, is_prompt ev = false) evs
    ∧ match fs w path with
      | Parsed config =>
          if contains config "openstack" then
            match r with
            | Some d =>
                (∀ k, is_Some (d !! k)
                      ↔ k ∈ recognized_keys ∧ has_option config "openstack" k = true)
                ∧ (∀ k v, d !! k = Some v → getitem config "openstack" k = Ok v)
            | None =>
                ∃ k e, k ∈ recognized_keys
                       ∧ has_option config "openstack" k = true
                       ∧ getitem config "openstack" k = Raise e
            end
          else r = None
      | _ => r = None
      end.
Proof.
  exists (loaded_record w path), (load_events w path).
  split; [apply load_config_file_returns|].
  split; [apply hushed_events, hushed_load_config_file|].
  unfold loaded_record, load_config_file, try_except.
  pose proof (config_read_run w path idle) as Hread.
  destruct (fs w path) as [| | e | config].
  1,2: by erewrite bind_ok by exact Hread.
  { by erewrite bind_raise by exact Hread. }
  erewrite bind_ok by exact Hread.
  destruct (contains config "openstack"); [|reflexivity].
  cbn [negb]. rewrite config_mapping_keys.
  destruct (copy_options_spec config recognized_keys ∅
              (after idle [EvConfigRead path]))
    as [(d & Hrun & Hin & Hout) | (k & e & Hrun & Hk & Hh & Hg)].
  - erewrite bind_ok by exact Hrun. cbn. split.
    + intros k. split.
      * intros Hs. destruct (decide (k ∈ recognized_keys)) as [Hk|Hk];
          [destruct (has_option config "openstack" k) eqn:Hh; [done|] |].
        -- rewrite Hout, lookup_empty in Hs by (by right). by destruct Hs.
        -- rewrite Hout, lookup_empty in Hs by (by left). by destruct Hs.
      * intros [Hk Hh]. destruct (Hin k Hk Hh) as (v & _ & ->). by eexists.
    + intros k v Hkv.
      destruct (decide (k ∈ recognized_keys)) as [Hk|Hk];
        [destruct (has_option config "openstack" k) eqn:Hh |].
      * destruct (Hin k Hk Hh) as (v' & Hg & Hd). congruence.
      * rewrite Hout, lookup_empty in Hkv by (by right). done.
      * rewrite Hout, lookup_empty in Hkv by (by left). done.
  - erewrite bind_raise by exact Hrun. cbn. by exists k, e.
Qed.

(** C6, as stated, fails when the password holds a percent sign: the
    section is there, the key is there, and no record comes back. *)
Lemma percent_sign_defeats_loader :
  fs Worlds.from_percent_file "./openstack.conf" = Parsed Worlds.percent_config
  ∧ contains Worlds.percent_config "openstack" = true
  ∧ has_option Worlds.percent_config "openstack" "password" = true
  ∧ (load_config_file Worlds.from_percent_file "./openstack.conf" idle).1 = Ok None.
Proof. split_and!; vm_compute; reflexivity. Qed.

Lemma good_file_is_loaded :
  (load_config_file Worlds.from_file "./openstack.conf" idle).1
  = Ok (Some (list_to_map
                [("auth_url", "https://keystone.example.com:5000/v3");
                 ("username", "testuser"); ("password", "testpass");
                 ("project_name", "testproject"); ("region_name", "RegionOne")])).
Proof. vm_compute. reflexivity. Qed.

(** *** Choosing the credential source *)

Lemma validate_true_iff r :
  (validate_auth_config r).1 = true ↔ Forall (present_nonempty r) declared_order.
Proof. rewrite validate_auth_config_unfold. apply bool_decide_eq_true. Qed.

Lemma validate_missing r :
  (validate_auth_config r).2 = filter (absent_or_empty r) declared_order.
Proof. by rewrite validate_auth_config_unfold. Qed.

Lemma complete_is_truthy (r : auth_dict) :
  Forall (present_nonempty r) declared_order → dict_truthy r = true.
Proof.
  intros H. apply Forall_cons in H as [(v & Hv & _) _].
  unfold dict_truthy. apply negb_true_iff, bool_decide_eq_false.
  intros ->. by rewrite lookup_empty in Hv.
Qed.

Lemma environ_get_run w var s :
  environ_get w var s = (Ok (environ w !! var), after s [EvGetenv var]).
Proof. reflexivity. Qed.

Lemma environment_loop w (l : list (string * string)) (acc : auth_dict) s :
  for_fold l acc
    (λ auth_config '(env_var, param_key),
       value ← environ_get w env_var;
       match value with
       | Some v => if PyStr.truthy v then mret (<[param_key := v]> auth_config)
                   else mret auth_config
       | None => mret auth_config
       end) s
  = (Ok (foldl (λ auth_config '(env_var, param_key),
                  match environ w !! env_var with
                  | Some v => if PyStr.truthy v then <[param_key := v]> auth_config
                              else auth_config
                  | None => auth_config
                  end) acc l),
     after s (EvGetenv <$> l.*1)).
Proof.
  revert acc s. induction l as [|[env_var param_key] l IH]; intros acc s.
  - cbn. by rewrite after_nil.
  - cbn [for_fold foldl fmap list_fmap fst].
    destruct (environ w !! env_var) as [v|] eqn:E;
      [destruct (PyStr.truthy v) eqn:T|].
    all: erewrite bind_ok
      by (erewrite bind_ok by apply environ_get_run; rewrite E, ?T; reflexivity).
    all: by rewrite IH, after_after.
Qed.

Lemma get_auth_from_environment_run w s :
  get_auth_from_environment w s
  = (Ok (environment_record w), after s (EvGetenv <$> env_mapping.*1)).
Proof. apply environment_loop. Qed.

Lemma path_exists_run w path s :
  path_exists w path s
  = (Ok (match fs w path with Missing => false | _ => true end),
     after s [EvPathExists path]).
Proof. reflexivity. Qed.

(** The scan adopts the first usable file, or keeps what it had. *)
Lemma try_default_configs_run w paths (auth_config : auth_dict) s :
  try_default_configs w paths auth_config s
  = (Ok (match first_usable w paths with
         | Some (_, r) => r
         | None => auth_config
         end),
     after s (scan_events w paths)).
Proof.
  revert s. induction paths as [|path rest IH]; intros s.
  - cbn. by rewrite after_nil.
  - cbn [try_default_configs first_usable scan_events].
    erewrite bind_ok by apply path_exists_run.
    unfold usable_file.
    destruct (fs w path) eqn:Hfs.
    { rewrite IH, after_after. reflexivity. }
    all: erewrite bind_ok by apply load_config_file_returns.
    all: destruct (loaded_record w path) as [fc|];
      [| rewrite IH, !after_after; reflexivity].
    all: case_decide as Hc.
    all: try (rewrite complete_is_truthy by done;
              rewrite (proj2 (validate_true_iff fc) Hc); cbn [andb];
              rewrite bind_print, !after_after; reflexivity).
    all: destruct ((validate_auth_config fc).1) eqn:Hv;
      [apply validate_true_iff in Hv; done|].
    all: rewrite andb_false_r, IH, !after_after; reflexivity.
Qed.

Lemma scan_events_hushed w paths :
  Forall (λ ev, is_prompt ev = false) (scan_events w paths).
Proof.
  induction paths as [|path rest IH]; [constructor|].
  cbn [scan_events]. constructor; [done|].
  pose proof (hushed_events _ (hushed_load_config_file w path)) as Hl.
  fold (load_events w path) in Hl.
  destruct (fs w path); [done|..];
    (apply Forall_app; split; [done|]);
    destruct (usable_file w path); try done; by repeat constructor.
Qed.

Lemma first_usable_complete w paths path r :
  first_usable w paths = Some (path, r) →
  path ∈ paths ∧ usable_file w path = Some r
  ∧ Forall (present_nonempty r) declared_order.
Proof.
  induction paths as [|p rest IH]; [done|]. cbn.
  destruct (usable_file w p) as [r'|] eqn:Hu.
  - intros [= <- <-]. split; [by left|]. split; [done|].
    unfold usable_file in Hu.
    destruct (fs w p); [done|..];
      destruct (loaded_record w p); try done; case_decide; by simplify_eq.
  - intros H. destruct (IH H) as (? & ? & ?). split; [by right | done].
Qed.

(** C4. Under ['auto'] the environment is read first.  A validating
    environment record is the result, with no file access and no prompt.
    Otherwise the three well-known paths are scanned in order and the first
    existing file whose record loads and validates is the result, again
    without a prompt; if there is none, the interactive prompts decide. *)
Theorem auto_resolution_order (w : world) (config_file : option string)
    (kwargs : auth_dict) (s : io_state) :
  OPENSTACK_AVAILABLE w = true →
  let env_record := environment_record w in
  let env_events := EvGetenv <$> env_mapping.*1 in
  let scan := scan_events w (well_known_paths w) in
  get_auth_from_environment w s = (Ok env_record, after s env_events)
  ∧ Forall (λ ev, is_file_access ev = false ∧ is_prompt ev = false) env_events
  ∧ Forall (λ ev, is_prompt ev = false) scan
  ∧ (Forall (present_nonempty env_record) declared_order →
     resolve_auth_config w "auto" config_file kwargs s
       = (Ok env_record, after s env_events))
  ∧ (¬ Forall (present_nonempty env_record) declared_order →
     match first_usable w (well_known_paths w) with
     | Some (path, file_record) =>
         resolve_auth_config w "auto" config_file kwargs s
           = (Ok file_record, after s (env_events ++ scan))
         ∧ path ∈ well_known_paths w
         ∧ usable_file w path = Some file_record
         ∧ last scan = Some (EvPrint ("Using configuration from: " +:+ path))
     | None =>
         resolve_auth_config w "auto" config_file kwargs s
           = get_auth_interactive
               (after s (env_events ++ scan ++
                  [EvPrint "No valid authentication found in environment or config files."]))
     end).
Proof.
  intros Hsdk env_record env_events scan.
  split; [apply get_auth_from_environment_run|].
  split; [by repeat constructor|].
  split; [apply scan_events_hushed|].
  unfold resolve_auth_config. rewrite Hsdk. cbn [negb String.eqb Ascii.eqb Bool.eqb].
  erewrite bind_ok by apply get_auth_from_environment_run.
  fold env_record env_events.
  split.
  - intros Hc. apply validate_true_iff in Hc. by rewrite Hc.
  - intros Hc.
    destruct ((validate_auth_config env_record).1) eqn:Hv;
      [by apply validate_true_iff in Hv|].
    cbn [negb].
    erewrite bind_ok by apply try_default_configs_run.
    change (default_config_paths w) with (well_known_paths w). fold scan.
    destruct (first_usable w (well_known_paths w)) as [[path file_record]|] eqn:Hf.
    + apply first_usable_complete in Hf as Hf'. destruct Hf' as (Hin & Hu & Hok).
      rewrite (proj2 (validate_true_iff file_record) Hok). cbn [negb].
      rewrite after_after. split_and!; try done.
      clear -Hf. unfold scan. revert Hf.
      generalize (well_known_paths w). intros paths.
      induction paths as [|p rest IH]; [done|]. cbn.
      destruct (usable_file w p) as [r'|] eqn:Hu.
      * intros [= <- <-]. unfold usable_file in Hu.
        destruct (fs w p); [done|..]; by rewrite last_cons, last_snoc.
      * intros H. specialize (IH H). rewrite last_cons.
        destruct (fs w p); rewrite ?last_app, IH; done.
    + rewrite Hv. cbn [negb]. rewrite bind_print, !after_after.
      by rewrite <- ?app_assoc.
Qed.

(** With nothing in the environment and a valid [./openstack.conf], the
    record comes from that file and nobody is prompted. *)
Lemma auto_uses_the_config_file :
  ∃ evs,
    resolve_auth_config Worlds.from_file "auto" None ∅ idle
      = (Ok (list_to_map
               [("auth_url", "https://keystone.example.com:5000/v3");
                ("username", "testuser"); ("password", "testpass");
                ("project_name", "testproject"); ("region_name", "RegionOne")]),
         after idle evs)
    ∧ Forall (λ ev, is_prompt ev = false) evs.
Proof.
  destruct (auto_resolution_order Worlds.from_file None ∅ idle)
    as (_ & _ & Hq & _ & Hfile); [reflexivity|].
  eexists. split.
  - assert (Hn : ¬ Forall (present_nonempty (environment_record Worlds.from_file))
                     declared_order).
    { intros H. apply Forall_cons in H as [(v & Hv & _) _].
      vm_compute in Hv. discriminate. }
    specialize (Hfile Hn).
    replace (first_usable Worlds.from_file (well_known_paths Worlds.from_file))
      with (Some ("./openstack.conf",
                  (list_to_map
                     [("auth_url", "https://keystone.example.com:5000/v3");
                      ("username", "testuser"); ("password", "testpass");
                      ("project_name", "testproject"); ("region_name", "RegionOne")]
                   : auth_dict))) in Hfile by (vm_compute; reflexivity).
    apply Hfile.
  - apply Forall_app. split; [|exact Hq]. vm_compute. by repeat constructor.
Defined.

(** With the four variables set, the environment alone is consulted. *)
Lemma auto_uses_the_environment :
  resolve_auth_config Worlds.from_env "auto" None ∅ idle
  = (Ok (list_to_map
           [("auth_url", "https://keystone.example.com:5000/v3");
            ("username", "testuser"); ("password", "testpass");
            ("project_name", "testproject")]),
     IoState [] []
       (EvGetenv <$> ["OS_AUTH_URL"; "OS_USERNAME"; "OS_PASSWORD"; "OS_PROJECT_NAME";
                      "OS_USER_DOMAIN_NAME"; "OS_PROJECT_DOMAIN_NAME";
                      "OS_REGION_NAME"; "OS_INTERFACE"])).
Proof. vm_compute. reflexivity. Qed.

(** *** The validation gate *)

Lemma connect_and_authorize_run w (auth_config : auth_dict) :
  ∃ r evs, ∀ s,
    connect_and_authorize w auth_config s
      = (r, after s (EvConnect auth_config :: evs)).
Proof.
  unfold connect_and_authorize, try_except.
  destruct (openstack_connect w auth_config) as [conn|e] eqn:Hc.
  2:{ eexists _, _. intros s. rewrite bind_emit.
      erewrite bind_raise by reflexivity.
      rewrite bind_print. unfold raise. rewrite after_after. reflexivity. }
  destruct (authorize conn) as [[]|e] eqn:Ha.
  2:{ eexists _, _. intros s. rewrite bind_emit.
      erewrite bind_ok by reflexivity.
      rewrite bind_emit.
      erewrite bind_raise by (unfold lift; rewrite Ha; reflexivity).
      rewrite bind_print. unfold raise. rewrite !after_after. reflexivity. }
  unfold dict_getitem.
  destruct (auth_config !! "auth_url") as [auth_url|] eqn:H1;
    [destruct (auth_config !! "project_name") as [project_name|] eqn:H2;
     [destruct (auth_config !! "username") as [username|] eqn:H3|]|].
  all: eexists _, _; intros s; rewrite bind_emit;
    erewrite bind_ok by reflexivity;
    rewrite bind_emit;
    erewrite bind_ok by (unfold lift; rewrite Ha; reflexivity).
  - erewrite bind_ok by reflexivity. rewrite bind_print.
    erewrite bind_ok by reflexivity. rewrite bind_print.
    erewrite bind_ok by reflexivity. rewrite bind_print.
    unfold mret, io_ret. rewrite !after_after. reflexivity.
  - erewrite bind_ok by reflexivity. rewrite bind_print.
    erewrite bind_ok by reflexivity. rewrite bind_print.
    erewrite bind_raise by reflexivity. rewrite bind_print.
    unfold raise. rewrite !after_after. reflexivity.
  - erewrite bind_ok by reflexivity. rewrite bind_print.
    erewrite bind_raise by reflexivity. rewrite bind_print.
    unfold raise. rewrite !after_after. reflexivity.
  - erewrite bind_raise by reflexivity. rewrite bind_print.
    unfold raise. rewrite !after_after. reflexivity.
Qed.

Lemma after_cons_neq s ev evs : after s (ev :: evs) ≠ s.
Proof.
  destruct s as [i t tr]. unfold after. cbn. intros [= H].
  apply (f_equal length) in H. rewrite length_app in H. cbn in H. lia.
Qed.

(** C5. Whatever the strategy, once it has produced a record [r]: the
    resolver raises the missing-fields error (names joined in declared order)
    exactly when [r] is incomplete; when [r] is complete it goes on to connect
    with [r] extended by the defaults "default", "default", "public". *)
Theorem validation_gate (w : world) (auth_method : string)
    (config_file : option string) (kwargs : auth_dict)
    (s s1 : io_state) (r : auth_dict) :
  resolve_auth_config w auth_method config_file kwargs s = (Ok r, s1) →
  let outcome := setup_openstack_connection w auth_method config_file kwargs s in
  (outcome = (Raise (validation_error r), s1)
   ↔ ¬ Forall (present_nonempty r) declared_order)
  ∧ (Forall (present_nonempty r) declared_order →
     outcome = connect_and_authorize w (set_defaults r) s1
     ∧ (∃ evs, trace outcome.2 = trace s1 ++ EvConnect (set_defaults r) :: evs)
     ∧ set_defaults r !! "user_domain_name"
         = Some (default "default" (r !! "user_domain_name"))
     ∧ set_defaults r !! "project_domain_name"
         = Some (default "default" (r !! "project_domain_name"))
     ∧ set_defaults r !! "interface" = Some (default "public" (r !! "interface"))).
Proof.
  intros Hres outcome.
  assert (Hbad : ¬ Forall (present_nonempty r) declared_order →
                 outcome = (Raise (validation_error r), s1)).
  { intros Hn. unfold outcome, setup_openstack_connection.
    erewrite bind_ok by exact Hres.
    pose proof (validate_missing r) as Hm.
    destruct (validate_auth_config r) as [is_valid missing] eqn:Hv.
    destruct is_valid.
    - exfalso. apply Hn. apply validate_true_iff. by rewrite Hv.
    - cbn in Hm. subst missing. reflexivity. }
  assert (Hgood : Forall (present_nonempty r) declared_order →
                  outcome = connect_and_authorize w (set_defaults r) s1).
  { intros Hc. unfold outcome, setup_openstack_connection.
    erewrite bind_ok by exact Hres.
    apply validate_true_iff in Hc.
    destruct (validate_auth_config r) as [is_valid missing].
    cbn in Hc. by subst is_valid. }
  destruct (connect_and_authorize_run w (set_defaults r)) as (r' & evs & Hrun).
  split.
  - split; [|done]. intros Hout Hc.
    rewrite (Hgood Hc), Hrun in Hout. injection Hout as _ Hs.
    by apply after_cons_neq in Hs.
  - intros Hc. split; [by apply Hgood|]. split.
    + exists evs. by rewrite (Hgood Hc), Hrun.
    + rewrite !set_defaults_lookup. done.
Qed.

(** Only an [auth_url] on the command line: the other three fields are
    reported missing, in order. *)
Lemma missing_credentials_are_reported :
  setup_openstack_connection Worlds.bare "args" None
    {["auth_url" := "https://example.com"]} idle
  = (Raise (Exception "ValueError"
              "Missing required authentication fields: username, password, project_name"),
     idle).
Proof.
  pose proof (validation_gate Worlds.bare "args" None
                {["auth_url" := "https://example.com"]} idle idle
                {["auth_url" := "https://example.com"]} eq_refl) as [H _].
  cbv zeta in H. rewrite (proj2 H).
  - vm_compute. reflexivity.
  - intros Hc. apply Forall_cons in Hc as [_ Hc].
    apply Forall_cons in Hc as [(v & Hv & _) _].
    vm_compute in Hv. discriminate.
Defined.

(** *** The "Public IP" column *)

Lemma bind_inv {A B} (m : IO A) (f : A → IO B) s b s' :
  (m ≫= f) s = (Ok b, s') → ∃ a s1, m s = (Ok a, s1) ∧ f a s1 = (Ok b, s').
Proof.
  unfold mbind, io_bind. destruct (m s) as [[a|e] s1]; [|discriminate].
  intros H. by exists a, s1.
Qed.

(** The column is computed from the joined entries alone. *)
Lemma instance_details_public_ip w conn server s r s' :
  instance_details w conn server s = (Ok r, s') →
  ∃ ip, public_ip (network_entries (Server.addresses server)) = Ok ip
        ∧ row_get r "Public IP" = Some (PStr ip).
Proof.
  unfold instance_details. intros H.
  do 6 (apply bind_inv in H as (? & ? & _ & H)).
  apply bind_inv in H as (ip & ? & Hip & H).
  unfold lift in Hip. injection Hip as Hip _.
  injection H as <- _. by exists ip.
Qed.

Lemma public_ip_no_entries : public_ip [] = Ok "N/A".
Proof. reflexivity. Qed.

Lemma public_ip_first_entry_only first rest : public_ip (first :: rest) = public_ip [first].
Proof. reflexivity. Qed.

Lemma append_nil_l (s : string) : "" +:+ s = s.
Proof. reflexivity. Qed.

Lemma append_cons x (a b : string) : String x a +:+ b = String x (a +:+ b).
Proof. reflexivity. Qed.

Lemma split_sep c a b :
  free_of c a = true → PyStr.split c (a +:+ String c b) = a :: PyStr.split c b.
Proof.
  induction a as [|x a IH]; rewrite ?append_nil_l, ?append_cons; cbn -[Ascii.eqb].
  - intros _. by rewrite Ascii.eqb_refl.
  - intros [Hx Ha]%andb_true_iff. apply negb_true_iff in Hx.
    rewrite Hx, (IH Ha). reflexivity.
Qed.

Lemma split_head c a b :
  free_of c a = true →
  ∃ hd tl, PyStr.split c b = hd :: tl ∧ PyStr.split c (a +:+ b) = (a +:+ hd) :: tl.
Proof.
  intros Ha.
  assert (∃ hd tl, PyStr.split c b = hd :: tl) as (hd & tl & Hb).
  { destruct b as [|y b]; cbn -[Ascii.eqb]; [by eexists _, _|].
    destruct (Ascii.eqb y c); [by eexists _, _|].
    destruct (PyStr.split c b); by eexists _, _. }
  exists hd, tl. split; [done|].
  induction a as [|x a IH]; rewrite ?append_nil_l, ?append_cons; [done|].
  cbn -[Ascii.eqb] in Ha |- *.
  apply andb_true_iff in Ha as [Hx Ha]. apply negb_true_iff in Hx.
  by rewrite Hx, (IH Ha).
Qed.

Lemma free_of_app c a b :
  free_of c a = true → free_of c b = true → free_of c (a +:+ b) = true.
Proof.
  induction a as [|x a IH]; rewrite ?append_nil_l, ?append_cons;
    cbn -[Ascii.eqb]; [done|].
  intros [Hx Ha]%andb_true_iff Hb. rewrite Hx. cbn. by apply IH.
Qed.

Lemma append_assoc (a b c : string) : (a +:+ b) +:+ c = a +:+ (b +:+ c).
Proof.
  induction a as [|x a IH]; rewrite ?append_nil_l, ?append_cons; [done|].
  by rewrite IH.
Qed.

(** On a well-formed entry the column is the address exactly when the whole
    entry, not only its type marker, contains [floating]. *)
Lemma public_ip_of_entry network_name addr ips_type rest :
  free_of ":" network_name = true →
  free_of ":" addr = true → free_of "(" addr = true →
  public_ip (network_entry network_name addr ips_type :: rest)
  = Ok (if PyStr.contains "floating" (network_entry network_name addr ips_type)
        then PyStr.strip (addr +:+ " ") else "N/A").
Proof.
  intros Hn Ha Hp. unfold public_ip.
  destruct (PyStr.contains _ _); [|done].
  unfold network_entry.
  change (network_name +:+ ":" +:+ addr +:+ " (" +:+ ips_type +:+ ")")
    with (network_name +:+ String ":" (addr +:+ " (" +:+ ips_type +:+ ")")).
  rewrite (split_sep ":" network_name _ Hn).
  destruct (split_head ":" (addr +:+ " (") (ips_type +:+ ")")) as (hd & tl & _ & Hs).
  { apply free_of_app; done. }
  rewrite append_assoc in Hs. rewrite Hs. cbn [list_getitem lookup list_lookup].
  rewrite append_assoc.
  change (addr +:+ " (" +:+ hd) with (addr +:+ " " +:+ String "(" hd).
  rewrite <- append_assoc.
  rewrite (split_sep "(" (addr +:+ " ") hd) by (by apply free_of_app).
  reflexivity.
Qed.

(** C7 (the code departs from it). An instance whose only address is a fixed
    one on a network called [floating-net]: the type marker does not contain
    "floating", yet the "Public IP" column holds the address. *)
Theorem fixed_address_reported_as_public_ip :
  ∃ r s',
    instance_details Worlds.bare Example.conn Instances.on_provider_net idle = (Ok r, s')
    ∧ Server.addresses Instances.on_provider_net
      = [("floating-net",
          [{| Address.addr := "10.0.0.5"; Address.ips_type := "fixed" |}])]
    ∧ PyStr.contains "floating" "fixed" = false
    ∧ row_get r "Network IPs" = Some (PStr "floating-net:10.0.0.5 (fixed)")
    ∧ row_get r "Public IP" = Some (PStr "10.0.0.5").
Proof.
  eexists _, _. split; [vm_compute; reflexivity|].
  split_and!; vm_compute; reflexivity.
Qed.

Lemma public_ip_examples :
  public_ip ["ext-net:203.0.113.7 (floating)"] = Ok "203.0.113.7"
  ∧ public_ip ["private:10.0.0.1 (fixed)"] = Ok "N/A"
  ∧ public_ip ["private:10.0.0.1 (fixed)"; "private:203.0.113.7 (floating)"] = Ok "N/A"
  ∧ public_ip ["ext-net:2001:db8::1 (floating)"] = Ok "2001".
Proof. split_and!; vm_compute; reflexivity. Qed.

(** *** Preconditions of the report builder *)

(** C9. Without a connection, or with both passes disabled, the report
    builder prints the error and returns: nothing is fetched, no file is
    written, no exception is raised. *)
Theorem report_precondition_failure (w : world)
    (instance_filename hypervisor_filename : string) (conn : option connection)
    (export_instances export_hypervisors : bool) (s : io_state) :
  conn = None ∨ (export_instances = false ∧ export_hypervisors = false) →
  get_openstack_info_and_export_csv w instance_filename hypervisor_filename
    conn export_instances export_hypervisors s
  = (Ok (),
     after s [EvPrint
       match conn with
       | None => "Error: OpenStack connection not provided"
       | Some _ =>
           "Error: At least one export option (instances or hypervisors) must be enabled"
       end]).
Proof.
  intros [-> | [-> ->]]; [reflexivity|].
  destruct conn; reflexivity.
Qed.

(** Both passes disabled on a live connection: one line printed, that is all. *)
Lemma nothing_requested_nothing_done :
  get_openstack_info_and_export_csv Worlds.bare "openstack_instances.csv"
    "openstack_hypervisors.csv" (Some Example.conn) false false idle
  = (Ok (),
     IoState [] []
       [EvPrint "Error: At least one export option (instances or hypervisors) must be enabled"]).
Proof.
  rewrite (report_precondition_failure Worlds.bare "openstack_instances.csv"
             "openstack_hypervisors.csv" (Some Example.conn) false false idle)
    by (right; split; reflexivity).
  reflexivity.
Defined.

(** The hypervisor pass alone on the example cloud: the instances are still
    fetched, one file is written, and the run ends normally. *)
Lemma hypervisors_only_run :
  let outcome :=
    get_openstack_info_and_export_csv Worlds.bare "openstack_instances.csv"
      "openstack_hypervisors.csv" (Some Example.conn) false true idle in
  outcome.1 = Ok ()
  ∧ omap (λ ev, match ev with
                | EvServers => Some "servers"
                | EvHypervisors => Some "hypervisors"
                | _ => None
                end) (trace outcome.2)
    = ["servers"; "hypervisors"]
  ∧ omap (λ ev, match ev with
                | EvWriteCsv filename _ rows => Some (filename, length rows)
                | _ => None
                end) (trace outcome.2)
    = [("openstack_hypervisors.csv", 1%nat)].
Proof. split_and!; vm_compute; reflexivity. Qed.

(** ** Further properties *)

(** *** Input-free computations *)

Section yields.
Context (P : event → Prop).

Lemma yields_ret {A} (Q : A → Prop) a : Q a → yields P Q (mret a).
Proof.
  intros HQ. exists (Ok a), []. split_and!; [|constructor|by intros ? [= <-]].
  intros s. by rewrite after_nil.
Qed.

Lemma yields_raise {A} (Q : A → Prop) e : yields P Q (raise e).
Proof.
  exists (Raise e), []. split_and!; [|constructor|done].
  intros s. by rewrite after_nil.
Qed.

Lemma yields_lift {A} (Q : A → Prop) (r : result A) :
  (∀ a, r = Ok a → Q a) → yields P Q (lift r).
Proof.
  intros HQ. exists r, []. split_and!; [|constructor|done].
  intros s. by rewrite after_nil.
Qed.

Lemma yields_emit (Q : unit → Prop) ev : P ev → Q () → yields P Q (emit ev).
Proof.
  intros HP HQ. exists (Ok ()), [ev]. split_and!; [done|by repeat constructor|].
  by intros [] _.
Qed.

Lemma yields_print (Q : unit → Prop) line :
  P (EvPrint line) → Q () → yields P Q (print line).
Proof. apply yields_emit. Qed.

Lemma yields_bind {A B} (Q : A → Prop) (R : B → Prop) (m : IO A) (f : A → IO B) :
  yields P Q m → (∀ a, Q a → yields P R (f a)) → yields P R (m ≫= f).
Proof.
  intros (r & evs & Hm & HP & HQ) Hf. destruct r as [a|e].
  - destruct (Hf a (HQ a eq_refl)) as (r2 & evs2 & Hfa & HP2 & HR).
    exists r2, (evs ++ evs2). split_and!; [|by apply Forall_app|done].
    intros s. erewrite bind_ok by apply Hm. by rewrite Hfa, after_after.
  - exists (Raise e), evs. split_and!; [|done|done].
    intros s. by erewrite bind_raise by apply Hm.
Qed.

Lemma yields_try_except {A} (Q : A → Prop) (body : IO A) (handler : exn → IO A) :
  yields P Q body → (∀ e, yields P Q (handler e)) →
  yields P Q (try_except body handler).
Proof.
  intros (r & evs & Hm & HP & HQ) Hh. destruct r as [a|e].
  - exists (Ok a), evs. split_and!; [|done|done].
    intros s. unfold try_except. by rewrite Hm.
  - destruct (Hh e) as (r2 & evs2 & Hhe & HP2 & HQ2).
    exists r2, (evs ++ evs2). split_and!; [|by apply Forall_app|done].
    intros s. unfold try_except. by rewrite Hm, Hhe, after_after.
Qed.

Lemma yields_for_fold {A B} (I : B → Prop) (xs : list A) (acc : B)
    (body : B → A → IO B) :
  I acc → (∀ acc x, I acc → yields P I (body acc x)) →
  yields P I (for_fold xs acc body).
Proof.
  intros Hacc Hb. revert acc Hacc.
  induction xs as [|x xs IH]; intros acc Hacc; cbn [for_fold].
  - by apply yields_ret.
  - eapply yields_bind; [by apply Hb | intros acc' Hacc'; by apply IH].
Qed.

Lemma yields_post {A} (Q Q' : A → Prop) (m : IO A) :
  yields P Q m → (∀ a, Q a → Q' a) → yields P Q' m.
Proof.
  intros (r & evs & Hm & HP & HQ) Himp. exists r, evs. split_and!; [done..|].
  intros a Ha. by apply Himp, HQ.
Qed.

End yields.

Lemma yields_events {A} (P P' : event → Prop) (Q : A → Prop) (m : IO A) :
  yields P Q m → (∀ ev, P ev → P' ev) → yields P' Q m.
Proof.
  intros (r & evs & Hm & HP & HQ) Himp. exists r, evs. split_and!; [done| |done].
  eapply Forall_impl; done.
Qed.

(** A run of an input-free computation. *)
Lemma yields_run {A} (P : event → Prop) (Q : A → Prop) (m : IO A) s r s' :
  yields P Q m → m s = (r, s') →
  ∃ evs, s' = after s evs ∧ Forall P evs ∧ (∀ a, r = Ok a → Q a).
Proof.
  intros (r0 & evs & Hm & HP & HQ) Hrun. rewrite Hm in Hrun.
  injection Hrun as <- <-. by exists evs.
Qed.

Ltac ystep :=
  lazymatch goal with
  | |- yields _ _ (mret _) => apply yields_ret
  | |- yields _ _ (raise _) => apply yields_raise
  | |- yields _ _ (print _) => apply yields_print
  | |- yields _ _ (emit _) => apply yields_emit
  | |- yields _ _ (lift _) => apply yields_lift
  | |- yields _ _ (try_except _ _) => apply yields_try_except; [|intros ?]
  | |- yields _ _ (_ ≫= _) => eapply (yields_bind _ (λ _, True)); [|intros ? _]
  | |- yields _ _ (if ?b then _ else _) => destruct b
  | |- yields _ _ (match ?x with _ => _ end) => destruct x
  end.

(** *** What the report builder may do *)

Lemma hypervisor_details_columns hypervisor acc r :
  hypervisor_details hypervisor acc = Ok r → r.*1 = hypervisor_columns.
Proof.
  unfold hypervisor_details.
  fold (disk_usage_of hypervisor).
  destruct (PyNum.ratio_or_zero (allocated_vcpus acc) _); [|discriminate].
  destruct (PyNum.ratio_or_zero (allocated_memory acc) _); [|discriminate].
  destruct (PyNum.percent_or_zero (Hypervisor.vcpus_used hypervisor) _);
    [|discriminate].
  destruct (PyNum.percent_or_zero (Hypervisor.memory_used hypervisor) _);
    [|discriminate].
  destruct (PyNum.percent_or_zero (allocated_vcpus acc) _); [|discriminate].
  destruct (PyNum.percent_or_zero (allocated_memory acc) _); [|discriminate].
  destruct (disk_usage_of hypervisor); [|discriminate].
  cbn. by intros [= <-].
Qed.

Section report_events.
Context (w : world) (conn : connection).
Context (export_instances export_hypervisors : bool).
Context (instance_filename hypervisor_filename : string).


Ltac allow := split; [reflexivity | exact I].

Lemma volume_info_allowed vol :
  export_instances = true → yields (report_allows export_instances export_hypervisors instance_filename hypervisor_filename)
    (λ _, True) (volume_info conn vol).
Proof.
  intros ->. unfold volume_info.
  repeat (ystep; try done; try allow).
Qed.

Lemma uptime_of_allowed server :
  export_instances = true → yields (report_allows export_instances export_hypervisors instance_filename hypervisor_filename)
    (λ _, True) (uptime_of w server).
Proof.
  intros ->. unfold uptime_of.
  repeat (ystep; try done; try allow).
Qed.

Lemma instance_details_allowed server :
  export_instances = true →
  yields (report_allows export_instances export_hypervisors instance_filename hypervisor_filename)
    (λ r, r.*1 = instance_columns) (instance_details w conn server).
Proof.
  intros Hi. unfold instance_details.
  ystep; [apply yields_print; [subst; allow | done]|].
  ystep. { subst. repeat (ystep; try done; try allow). }
  ystep. { subst. repeat (ystep; try done; try allow). }
  ystep. { subst. repeat (ystep; try done; try allow). }
  ystep.
  { apply yields_for_fold; [done|]. intros acc vol _.
    ystep; [by apply volume_info_allowed | by ystep]. }
  ystep; [by apply uptime_of_allowed|].
  ystep; [by ystep|].
  by ystep.
Qed.

Lemma count_server_allowed hypervisor acc server :
  yields (report_allows export_instances export_hypervisors instance_filename hypervisor_filename)
    (λ _, True) (count_server conn hypervisor acc server).
Proof.
  unfold count_server.
  repeat (ystep; try done; try allow).
Qed.

Lemma hypervisor_row_allowed all_servers hypervisor :
  yields (report_allows export_instances export_hypervisors instance_filename hypervisor_filename)
    (λ r, r.*1 = hypervisor_columns)
    (hypervisor_row conn all_servers hypervisor).
Proof.
  unfold hypervisor_row.
  ystep; [apply yields_print; [allow | done]|].
  ystep.
  { apply yields_for_fold; [done|]. intros. apply count_server_allowed. }
  ystep. intros r. apply hypervisor_details_columns.
Qed.

Lemma write_csv_allowed filename (rows : list row) first rest :
  rows = first :: rest →
  Forall (λ r : row, r.*1 = first.*1) rows →
  (export_instances && String.eqb filename instance_filename
   || export_hypervisors && String.eqb filename hypervisor_filename) = true →
  yields (report_allows export_instances export_hypervisors instance_filename hypervisor_filename)
    (λ _, True) (write_csv w filename (first.*1) rows).
Proof.
  intros Hrows Hcols Hname. unfold write_csv.
  ystep; [by ystep|].
  ystep; [|done]. split; [exact Hname|]. split; [by rewrite Hrows | done].
Qed.

Lemma export_instance_data_allowed all_servers :
  export_instances = true →
  yields (report_allows export_instances export_hypervisors instance_filename hypervisor_filename)
    (λ _, True)
    (export_instance_data w conn instance_filename all_servers).
Proof.
  intros Hi. unfold export_instance_data.
  destruct all_servers as [|server rest]; [apply yields_print; [allow | done]|].
  eapply (yields_bind _ (Forall (λ r : row, r.*1 = instance_columns))).
  { apply yields_for_fold; [constructor|]. intros acc x Hacc.
    eapply yields_bind; [by apply instance_details_allowed|].
    intros r Hr. apply yields_ret. apply Forall_app. by repeat constructor. }
  intros [|first more] Hdata; [by ystep|].
  ystep; [|apply yields_print; [allow | done]].
  eapply write_csv_allowed; [done| |].
  - inversion Hdata as [|? ? Hfirst _]; subst. rewrite Hfirst. done.
  - by rewrite Hi, String.eqb_refl.
Qed.

Lemma export_hypervisor_data_allowed all_servers :
  export_hypervisors = true →
  yields (report_allows export_instances export_hypervisors instance_filename hypervisor_filename)
    (λ _, True)
    (export_hypervisor_data w conn hypervisor_filename all_servers).
Proof.
  intros Hh. unfold export_hypervisor_data.
  ystep; [apply yields_print; [allow | done]|].
  ystep; [apply yields_emit; [subst; allow | done]|].
  eapply (yields_bind _ (λ _, True)); [by ystep|]. intros hypervisors _.
  destruct (iter_truthy hypervisors); [|apply yields_print; [allow | done]].
  eapply (yields_bind _ (Forall (λ r : row, r.*1 = hypervisor_columns))).
  { apply yields_for_fold; [constructor|]. intros acc x Hacc.
    eapply yields_bind; [apply hypervisor_row_allowed|].
    intros r Hr. apply yields_ret. apply Forall_app. by repeat constructor. }
  intros [|first more] Hdata; [by ystep|].
  ystep; [|apply yields_print; [allow | done]].
  eapply write_csv_allowed; [done| |].
  - inversion Hdata as [|? ? Hfirst _]; subst. rewrite Hfirst. done.
  - rewrite Hh, String.eqb_refl. by rewrite orb_true_r.
Qed.

End report_events.

Lemma report_builder_allows (w : world)
    (instance_filename hypervisor_filename : string) (conn : option connection)
    (export_instances export_hypervisors : bool) :
  yields
    (report_allows export_instances export_hypervisors
       instance_filename hypervisor_filename)
    (λ _, True)
    (get_openstack_info_and_export_csv w instance_filename hypervisor_filename
       conn export_instances export_hypervisors).
Proof.
  unfold get_openstack_info_and_export_csv.
  destruct conn as [conn|]; [|apply yields_print; [by split | done]].
  destruct export_instances, export_hypervisors; cbn [negb andb].
  4: apply yields_print; [by split | done].
  all: ystep.
  all: try (apply yields_print; [by split | done]).
  all: try (ystep; [apply yields_print; [by split | done]|]).
  all: try (by apply export_hypervisor_data_allowed).
  all: repeat first
    [ by apply export_instance_data_allowed
    | apply yields_print; [by split | done]
    | apply yields_emit; [by split | done]
    | apply yields_lift; done
    | apply yields_ret; done
    | eapply (yields_bind _ (λ _, True)); [|intros ? _] ].
Qed.

(** X1. Whatever the cloud answers, the report builder reads no input and
    touches nothing but the cloud and its two files: hypervisors are listed
    only when the hypervisor pass is on; projects, images, volumes and the
    clock are consulted only when the instance pass is on; a file is written
    only for a pass that is on and only under that pass's file name. *)
Theorem report_builder_footprint (w : world)
    (instance_filename hypervisor_filename : string) (conn : option connection)
    (export_instances export_hypervisors : bool) :
  ∃ outcome evs,
    (∀ s, get_openstack_info_and_export_csv w instance_filename
            hypervisor_filename conn export_instances export_hypervisors s
          = (outcome, after s evs))
    ∧ Forall (λ ev, report_event export_instances export_hypervisors
                      instance_filename hypervisor_filename ev = true) evs.
Proof.
  destruct (report_builder_allows w instance_filename hypervisor_filename conn
              export_instances export_hypervisors) as (r & evs & Hrun & Hev & _).
  exists r, evs. split; [done|].
  eapply Forall_impl; [exact Hev|]. by intros ev [H _].
Qed.

(** X2. Every CSV file the report builder writes has at least one data row,
    and every row has exactly the columns of the header, in the header's
    order. *)
Theorem written_rows_fit_the_header (w : world)
    (instance_filename hypervisor_filename : string) (conn : option connection)
    (export_instances export_hypervisors : bool)
    (s s' : io_state) (outcome : result ()) :
  get_openstack_info_and_export_csv w instance_filename hypervisor_filename
    conn export_instances export_hypervisors s = (outcome, s') →
  ∃ evs,
    s' = after s evs
    ∧ ∀ filename header rows,
        EvWriteCsv filename header rows ∈ evs →
        rows ≠ [] ∧ Forall (λ r : row, r.*1 = header) rows.
Proof.
  intros Hrun.
  destruct (yields_run _ _ _ _ _ _
              (report_builder_allows w instance_filename hypervisor_filename conn
                 export_instances export_hypervisors) Hrun)
    as (evs & -> & Hev & _).
  exists evs. split; [done|]. intros filename header rows Hin.
  rewrite Forall_forall in Hev. by destruct (Hev _ Hin) as [_ Hw].
Qed.

Lemma example_hypervisor_file_fits :
  ∃ evs,
    (get_openstack_info_and_export_csv Worlds.bare
       "openstack_instances.csv" "openstack_hypervisors.csv"
       (Some Example.conn) false true idle).2 = after idle evs
    ∧ ∀ filename header rows,
        EvWriteCsv filename header rows ∈ evs →
        rows ≠ [] ∧ Forall (λ r : row, r.*1 = header) rows.
Proof.
  apply (written_rows_fit_the_header Worlds.bare
           "openstack_instances.csv" "openstack_hypervisors.csv"
           (Some Example.conn) false true idle _
           (get_openstack_info_and_export_csv Worlds.bare
              "openstack_instances.csv" "openstack_hypervisors.csv"
              (Some Example.conn) false true idle).1).
  apply surjective_pairing.
Defined.

(** *** The environment record *)

Lemma env_step_lookup w (acc : auth_dict) var key k :
  match environ w !! var with
  | Some v => if PyStr.truthy v then <[key := v]> acc else acc
  | None => acc
  end !! k
  = if decide (k = key) then
      match environ w !! var with
      | Some v => if PyStr.truthy v then Some v else acc !! k
      | None => acc !! k
      end
    else acc !! k.
Proof.
  destruct (environ w !! var) as [v|]; [destruct (PyStr.truthy v)|];
    case_decide; subst; try done.
  - apply lookup_insert_eq.
  - by apply lookup_insert_ne.
Qed.

Lemma env_fold_lookup w (l : list (string * string)) (acc : auth_dict) :
  NoDup l.*2 →
  let record :=
    foldl (λ auth_config '(env_var, param_key),
             match environ w !! env_var with
             | Some v => if PyStr.truthy v then <[param_key := v]> auth_config
                         else auth_config
             | None => auth_config
             end) acc l in
  (∀ env_var param_key,
     (env_var, param_key) ∈ l →
     record !! param_key
     = match environ w !! env_var with
       | Some v => if PyStr.truthy v then Some v else acc !! param_key
       | None => acc !! param_key
       end)
  ∧ (∀ key, key ∉ l.*2 → record !! key = acc !! key).
Proof.
  revert acc. induction l as [|[var0 key0] l IH]; intros acc Hnd; cbn zeta.
  { split; [intros ? ? Hin; by apply elem_of_nil in Hin | done]. }
  cbn [fmap list_fmap snd] in Hnd. apply NoDup_cons in Hnd as [Hkey0 Hnd].
  cbn [foldl].
  match goal with |- context [foldl _ ?a l] =>
    destruct (IH a Hnd) as [IH1 IH2] end.
  split.
  - intros env_var param_key [[= -> ->]|Hin]%elem_of_cons.
    + rewrite (IH2 _ Hkey0), env_step_lookup. by rewrite decide_True.
    + rewrite (IH1 _ _ Hin), env_step_lookup.
      rewrite decide_False; [done|]. intros ->. apply Hkey0.
      apply list_elem_of_fmap. by exists (env_var, key0).
  - intros key [Hne Hkey]%not_elem_of_cons.
    rewrite (IH2 _ Hkey), env_step_lookup. by rewrite decide_False.
Qed.

(** X3. The record read from the environment holds, under each parameter
    name, the value of its [OS_*] variable when that variable is set and not
    empty, and holds nothing else: no defaults are injected, and an empty
    variable counts as unset.  Reading it only consults the eight
    variables. *)
Theorem environment_record_lookup (w : world) :
  (∀ env_var param_key,
     (env_var, param_key) ∈ env_mapping →
     environment_record w !! param_key
     = match environ w !! env_var with
       | Some v => if PyStr.truthy v then Some v else None
       | None => None
       end)
  ∧ (∀ key, key ∉ env_mapping.*2 → environment_record w !! key = None)
  ∧ (∀ s, get_auth_from_environment w s
          = (Ok (environment_record w), after s (EvGetenv <$> env_mapping.*1))).
Proof.
  assert (Hnd : NoDup env_mapping.*2).
  { apply (bool_decide_unpack _). by vm_compute. }
  destruct (env_fold_lookup w env_mapping ∅ Hnd) as [H1 H2].
  split_and!.
  - intros env_var param_key Hin. unfold environment_record.
    rewrite (H1 _ _ Hin), lookup_empty.
    destruct (environ w !! env_var) as [v|]; [by destruct (PyStr.truthy v) | done].
  - intros key Hkey. unfold environment_record. by rewrite (H2 _ Hkey).
  - intros s. apply get_auth_from_environment_run.
Qed.

(** *** Defaults and validation *)

(** X4. Applying the defaults does not change what validation says about a
    record, and applying them twice is the same as applying them once. *)
Theorem set_defaults_keeps_validation (r : auth_dict) :
  validate_auth_config (set_defaults r) = validate_auth_config r
  ∧ set_defaults (set_defaults r) = set_defaults r.
Proof.
  split.
  - unfold validate_auth_config.
    assert (Hf : List.filter (not_get (set_defaults r)) required_fields
                 = List.filter (not_get r) required_fields).
    { apply List.filter_ext_in. intros field Hin. unfold not_get.
      rewrite set_defaults_lookup.
      cbn in Hin. destruct Hin as [<-|[<-|[<-|[<-|[]]]]]; by repeat case_decide. }
    by rewrite Hf.
  - apply map_eq. intros k. rewrite !set_defaults_lookup.
    repeat case_decide; try done; by destruct (r !! k).
Qed.

(** *** Connecting *)

(** X5. With a record that names the URL, the project and the user, the
    connection step returns the session only after both the connect call and
    the authorization round trip succeeded; when either fails, the
    collaborator's exception is printed and re-raised unchanged, and
    authorization is not attempted after a failed connect. *)
Theorem connect_and_authorize_outcome (w : world) (r : auth_dict)
    (auth_url project_name username : string) (s : io_state) :
  r !! "auth_url" = Some auth_url →
  r !! "project_name" = Some project_name →
  r !! "username" = Some username →
  connect_and_authorize w r s
  = match openstack_connect w r with
    | Raise e =>
        (Raise e,
         after s [EvConnect r;
                  EvPrint ("Error connecting to OpenStack: " +:+ exn_str e)])
    | Ok conn =>
        match authorize conn with
        | Raise e =>
            (Raise e,
             after s [EvConnect r; EvAuthorize;
                      EvPrint ("Error connecting to OpenStack: " +:+ exn_str e)])
        | Ok _ =>
            (Ok conn,
             after s [EvConnect r; EvAuthorize;
                      EvPrint ("Successfully connected to OpenStack at " +:+ auth_url);
                      EvPrint ("Project: " +:+ project_name);
                      EvPrint ("User: " +:+ username)])
        end
    end.
Proof.
  intros H1 H2 H3. unfold connect_and_authorize, try_except.
  rewrite bind_emit.
  destruct (openstack_connect w r) as [conn|e] eqn:Hc.
  2:{ erewrite bind_raise by reflexivity.
      rewrite bind_print. unfold raise. by rewrite !after_after. }
  erewrite bind_ok by reflexivity. rewrite bind_emit.
  destruct (authorize conn) as [[]|e] eqn:Ha.
  2:{ erewrite bind_raise by reflexivity.
      rewrite bind_print. unfold raise. by rewrite !after_after. }
  erewrite bind_ok by reflexivity.
  unfold dict_getitem. rewrite H1, H2, H3.
  erewrite bind_ok by reflexivity. rewrite bind_print.
  erewrite bind_ok by reflexivity. rewrite bind_print.
  erewrite bind_ok by reflexivity. rewrite bind_print.
  unfold mret, io_ret. by rewrite !after_after.
Qed.

Lemma example_connection_succeeds :
  (connect_and_authorize Worlds.bare
     (set_defaults (list_to_map [("auth_url", "https://keystone.example.com:5000/v3");
                                 ("username", "testuser"); ("password", "testpass");
                                 ("project_name", "testproject")])) idle).1
  = Ok Example.conn.
Proof.
  rewrite (connect_and_authorize_outcome Worlds.bare _
             "https://keystone.example.com:5000/v3" "testproject" "testuser" idle)
    by (vm_compute; reflexivity).
  reflexivity.
Defined.

(** *** Rows of the two passes *)

Lemma hypervisor_details_counts hypervisor acc r :
  hypervisor_details hypervisor acc = Ok r →
  row_get r "Active Instances"
    = Some (PInt (Z.of_nat (length (instances_on_hypervisor acc))))
  ∧ row_get r "Running VMs" = Some (Hypervisor.running_vms hypervisor).
Proof.
  unfold hypervisor_details.
  fold (disk_usage_of hypervisor).
  destruct (PyNum.ratio_or_zero (allocated_vcpus acc) _); [|discriminate].
  destruct (PyNum.ratio_or_zero (allocated_memory acc) _); [|discriminate].
  destruct (PyNum.percent_or_zero (Hypervisor.vcpus_used hypervisor) _);
    [|discriminate].
  destruct (PyNum.percent_or_zero (Hypervisor.memory_used hypervisor) _);
    [|discriminate].
  destruct (PyNum.percent_or_zero (allocated_vcpus acc) _); [|discriminate].
  destruct (PyNum.percent_or_zero (allocated_memory acc) _); [|discriminate].
  destruct (disk_usage_of hypervisor); [|discriminate].
  cbn. by intros [= <-].
Qed.

(** X6. The "Active Instances" column counts the fetched instances that run
    on the host and are ACTIVE, PAUSED or SUSPENDED, whether or not their
    flavor could be resolved; "Running VMs" is what the hypervisor itself
    reports. *)
Theorem active_instances_counted (conn : connection) (all_servers : list Server.t)
    (hypervisor : Hypervisor.t) (s s' : io_state) (r : row) :
  hypervisor_row conn all_servers hypervisor s = (Ok r, s') →
  row_get r "Active Instances"
    = Some (PInt (Z.of_nat (length (filter (runs_on hypervisor) all_servers))))
  ∧ row_get r "Running VMs" = Some (Hypervisor.running_vms hypervisor).
Proof.
  intros Hrow.
  destruct (hypervisor_row_spec conn all_servers hypervisor s)
    as (acc & evs & Hrun & _ & _ & Hi).
  rewrite Hrun in Hrow. injection Hrow as Hd _.
  apply hypervisor_details_counts in Hd. by rewrite Hi in Hd.
Qed.

Lemma example_active_instances :
  ∃ r, (hypervisor_row Example.conn [Example.test_server; Example.test_server]
          Example.compute_01 idle).1 = Ok r
       ∧ row_get r "Active Instances" = Some (PInt 2).
Proof.
  eexists. split; [vm_compute; reflexivity|].
  refine (proj1 (active_instances_counted Example.conn
                   [Example.test_server; Example.test_server]
                   Example.compute_01 idle _ _ _)).
  vm_compute. reflexivity.
Defined.

(** *** Attached volumes *)

Lemma volume_info_run conn (vol : gmap string string) vol_id s :
  vol !! "id" = Some vol_id →
  volume_info conn vol s = (Ok (volume_text conn vol), after s [EvGetVolume vol_id]).
Proof.
  intros Hid. unfold volume_info, volume_text, try_except, dict_getitem.
  rewrite Hid. erewrite bind_ok by reflexivity. rewrite bind_emit.
  destruct (get_volume conn vol_id) as [v|e] eqn:Hv.
  - erewrite bind_ok by (unfold lift; rewrite ?Hv; reflexivity). reflexivity.
  - erewrite bind_raise by (unfold lift; rewrite ?Hv; reflexivity).
    erewrite bind_ok by reflexivity. reflexivity.
Qed.

Lemma volumes_loop_run conn (vols : list (gmap string string)) (acc : list string) s :
  Forall (λ vol, is_Some (vol !! "id")) vols →
  ∃ evs,
    for_fold vols acc
      (λ volumes_info vol, info ← volume_info conn vol; mret (volumes_info ++ [info])) s
    = (Ok (acc ++ (volume_text conn <$> vols)), after s evs).
Proof.
  intros Hids. revert acc s.
  induction Hids as [|vol vols [vol_id Hid] _ IH]; intros acc s.
  - exists []. cbn. by rewrite app_nil_r, after_nil.
  - cbn [for_fold].
    erewrite bind_ok
      by (erewrite bind_ok by (by apply volume_info_run); reflexivity).
    destruct (IH (acc ++ [volume_text conn vol]) (after s [EvGetVolume vol_id]))
      as (evs & Hrun).
    exists (EvGetVolume vol_id :: evs). rewrite Hrun, after_after.
    cbn. by rewrite <- app_assoc.
Qed.

(** X7. A volume lookup that fails does not abort the instance: when every
    attached volume carries an id, the "Attached Volumes" column joins, in
    order, one text per volume, the id, name and size when the lookup
    succeeds and the id with the error message when it fails. *)
Theorem attached_volumes_column (w : world) (conn : connection) (server : Server.t)
    (s s' : io_state) (r : row) :
  Forall (λ vol, is_Some (vol !! "id")) (Server.attached_volumes server) →
  instance_details w conn server s = (Ok r, s') →
  row_get r "Attached Volumes"
  = Some (PStr (PyStr.join "; "
                  (volume_text conn <$> Server.attached_volumes server))).
Proof.
  intros Hids H. unfold instance_details in H.
  do 4 (apply bind_inv in H as (? & ? & _ & H)).
  apply bind_inv in H as (volumes_info & s1 & Hvols & H).
  match type of Hvols with for_fold _ _ _ ?s0 = _ =>
    destruct (volumes_loop_run conn _ [] s0 Hids) as (evs & Hloop) end.
  rewrite Hloop in Hvols. injection Hvols as <- _.
  do 2 (apply bind_inv in H as (? & ? & _ & H)).
  by injection H as <- _.
Qed.

Lemma example_failed_volume_lookup :
  let server :=
    {| Server.id := "server-789"; Server.name := "db-server";
       Server.status := "SHUTOFF"; Server.project_id := None;
       Server.flavor := None; Server.image := None;
       Server.addresses := [];
       Server.attached_volumes := [{["id" := "vol-1"]}];
       Server.created_at := PNone; Server.metadata := "{}";
       Server.to_dict := ∅ |} in
  ∃ r, (instance_details Worlds.bare Example.conn server idle).1 = Ok r
       ∧ row_get r "Attached Volumes"
         = Some (PStr "ID:vol-1, Details: Error - No Volume found").
Proof.
  intros server. eexists. split; [vm_compute; reflexivity|].
  rewrite (attached_volumes_column Worlds.bare Example.conn server idle
             (instance_details Worlds.bare Example.conn server idle).2).
  - vm_compute. reflexivity.
  - repeat constructor. by eexists.
  - vm_compute. reflexivity.
Defined.

(** *** Empty collections *)

(** X8. A cloud without instances and without hypervisors is no error: with
    at least one pass enabled the report builder returns normally and writes
    no file; the instance pass says "No instance data to export.". *)
Theorem empty_cloud_writes_nothing (w : world) (conn : connection)
    (instance_filename hypervisor_filename : string)
    (export_instances export_hypervisors : bool)
    (listing : iterable Hypervisor.t) (s : io_state) :
  servers conn = Ok [] →
  hypervisors conn = Ok listing →
  iter_items listing = [] →
  export_instances = true ∨ export_hypervisors = true →
  ∃ evs,
    get_openstack_info_and_export_csv w instance_filename hypervisor_filename
      (Some conn) export_instances export_hypervisors s = (Ok (), after s evs)
    ∧ Forall (λ ev, is_write ev = false) evs
    ∧ (export_instances = true → EvPrint "No instance data to export." ∈ evs).
Proof.
  intros Hs Hh Hl Hany.
  unfold get_openstack_info_and_export_csv, export_hypervisor_data,
    export_instance_data.
  destruct listing as [items|items]; cbn in Hl; subst items;
    destruct export_instances, export_hypervisors;
    try (by destruct Hany); cbn [negb andb iter_truthy iter_items for_fold];
    rewrite ?bind_print, ?bind_emit.
  all: repeat first
    [ rewrite bind_print | rewrite bind_emit
    | erewrite bind_ok by (unfold lift; rewrite ?Hs, ?Hh; reflexivity)
    | erewrite bind_ok by
        (rewrite ?bind_print, ?bind_emit;
         erewrite bind_ok by (unfold lift; rewrite ?Hs, ?Hh; reflexivity);
         rewrite ?bind_print; reflexivity) ].
  all: unfold print, emit, mret, io_ret; cbn.
  all: eexists; split;
    [unfold after; cbn; rewrite <- ?app_assoc; cbn; reflexivity|].
  all: split; [by repeat constructor|].
  all: intros Hon; try discriminate Hon;
    repeat first [apply list_elem_of_here | apply list_elem_of_further].
Qed.

Lemma empty_cloud_example :
  ∃ evs,
    get_openstack_info_and_export_csv Worlds.bare "openstack_instances.csv"
      "openstack_hypervisors.csv" (Some empty_cloud) true true idle
    = (Ok (), after idle evs)
    ∧ Forall (λ ev, is_write ev = false) evs.
Proof.
  destruct (empty_cloud_writes_nothing Worlds.bare empty_cloud
              "openstack_instances.csv" "openstack_hypervisors.csv" true true
              (PyGenerator []) idle eq_refl eq_refl eq_refl (or_introl eq_refl))
    as (evs & Hrun & Hw & _).
  by exists evs.
Defined.

(** *** The strategies one by one *)

Lemma setup_after_resolve w auth_method config_file kwargs s r s1 :
  resolve_auth_config w auth_method config_file kwargs s = (Ok r, s1) →
  setup_openstack_connection w auth_method config_file kwargs s
  = after_resolution w r s1.
Proof.
  intros Hres. unfold setup_openstack_connection, after_resolution.
  erewrite bind_ok by exact Hres.
  pose proof (validate_missing r) as Hm.
  pose proof (validate_true_iff r) as Hv.
  destruct (validate_auth_config r) as [is_valid missing]. cbn in Hm, Hv.
  destruct (decide (Forall (present_nonempty r) declared_order)) as [Hc|Hc].
  - apply Hv in Hc. by subst is_valid.
  - destruct is_valid; [exfalso; by apply Hc, Hv|]. by subst missing.
Qed.

Lemma setup_resolve_raise w auth_method config_file kwargs s e s1 :
  resolve_auth_config w auth_method config_file kwargs s = (Raise e, s1) →
  setup_openstack_connection w auth_method config_file kwargs s = (Raise e, s1).
Proof.
  intros Hres. unfold setup_openstack_connection.
  by erewrite bind_raise by exact Hres.
Qed.

(** X9. Three failures happen before anything is read or asked: a missing
    SDK (whatever the method), an unknown method name, and the ['config']
    method without a file path. *)
Theorem early_failures (w : world) (auth_method : string)
    (config_file : option string) (kwargs : auth_dict) (s : io_state) :
  (OPENSTACK_AVAILABLE w = false →
   ∃ msg, setup_openstack_connection w auth_method config_file kwargs s
          = (Raise (Exception "ImportError" msg), s))
  ∧ (OPENSTACK_AVAILABLE w = true → auth_method ∉ known_methods →
     setup_openstack_connection w auth_method config_file kwargs s
     = (Raise (Exception "ValueError"
                 ("Unknown authentication method: " +:+ auth_method)), s))
  ∧ (OPENSTACK_AVAILABLE w = true → config_file = None ∨ config_file = Some "" →
     setup_openstack_connection w "config" config_file kwargs s
     = (Raise (Exception "ValueError"
                 "Config file path must be provided when using 'config' auth method"),
        s)).
Proof.
  split_and!.
  - intros Hsdk. eexists. apply setup_resolve_raise.
    unfold resolve_auth_config. rewrite Hsdk. reflexivity.
  - intros Hsdk Hm. apply setup_resolve_raise.
    unfold resolve_auth_config. rewrite Hsdk. cbn [negb].
    unfold known_methods in Hm. rewrite !not_elem_of_cons in Hm.
    destruct Hm as (H1 & H2 & H3 & H4 & H5 & _).
    apply String.eqb_neq in H1, H2, H3, H4, H5.
    by rewrite H1, H2, H3, H4, H5.
  - intros Hsdk Hcf. apply setup_resolve_raise.
    unfold resolve_auth_config. rewrite Hsdk. cbn [negb].
    by destruct Hcf as [-> | ->].
Qed.

(** X10. The ['env'] method has no fallback: it consults the eight
    environment variables and nothing else, and an incomplete environment
    leads straight to the missing-fields error, without file access, prompt
    or connection attempt. *)
Theorem env_strategy_has_no_fallback (w : world) (config_file : option string)
    (kwargs : auth_dict) (s : io_state) :
  OPENSTACK_AVAILABLE w = true →
  let s1 := after s (EvGetenv <$> env_mapping.*1) in
  setup_openstack_connection w "env" config_file kwargs s
  = after_resolution w (environment_record w) s1
  ∧ (¬ Forall (present_nonempty (environment_record w)) declared_order →
     setup_openstack_connection w "env" config_file kwargs s
     = (Raise (validation_error (environment_record w)), s1)).
Proof.
  intros Hsdk s1.
  assert (Hsetup : setup_openstack_connection w "env" config_file kwargs s
                   = after_resolution w (environment_record w) s1).
  { apply setup_after_resolve. unfold resolve_auth_config. rewrite Hsdk.
    apply get_auth_from_environment_run. }
  split; [done|]. intros Hn. rewrite Hsetup. unfold after_resolution.
  by rewrite decide_False.
Qed.

Lemma env_strategy_on_a_bare_machine :
  setup_openstack_connection Worlds.bare "env" None ∅ idle
  = (Raise (Exception "ValueError"
              "Missing required authentication fields: auth_url, username, password, project_name"),
     after idle (EvGetenv <$> env_mapping.*1)).
Proof.
  destruct (env_strategy_has_no_fallback Worlds.bare None ∅ idle eq_refl)
    as [_ H].
  rewrite H; [vm_compute; reflexivity|].
  intros Hc. apply Forall_cons in Hc as [(v & Hv & _) _].
  vm_compute in Hv. discriminate.
Defined.

(** X11. The ['config'] method ignores the environment and the keyword
    arguments: it loads the one file named; a file that yields no record, or
    a section without any recognized key, gives "Failed to load
    configuration from <path>"; any other record goes to the validation
    gate. *)
Theorem config_strategy (w : world) (path : string) (kwargs : auth_dict)
    (s : io_state) :
  OPENSTACK_AVAILABLE w = true → path ≠ "" →
  let s1 := after s (load_events w path) in
  setup_openstack_connection w "config" (Some path) kwargs s
  = match loaded_record w path with
    | Some r =>
        if decide (r = ∅)
        then (Raise (Exception "ValueError"
                       ("Failed to load configuration from " +:+ path)), s1)
        else after_resolution w r s1
    | None =>
        (Raise (Exception "ValueError"
                  ("Failed to load configuration from " +:+ path)), s1)
    end.
Proof.
  intros Hsdk Hpath s1.
  destruct path as [|c path]; [done|].
  assert (Hres : resolve_auth_config w "config" (Some (String c path)) kwargs s
                 = match loaded_record w (String c path) with
                   | Some r =>
                       if decide (r = ∅)
                       then (Raise (Exception "ValueError"
                                      ("Failed to load configuration from "
                                       +:+ String c path)), s1)
                       else (Ok r, s1)
                   | None =>
                       (Raise (Exception "ValueError"
                                 ("Failed to load configuration from "
                                  +:+ String c path)), s1)
                   end).
  { unfold resolve_auth_config. rewrite Hsdk. cbn [negb].
    change (String.eqb "config" "auto") with false.
    change (String.eqb "config" "env") with false.
    change (String.eqb "config" "config") with true. cbv iota.
    erewrite bind_ok by apply load_config_file_returns. fold s1.
    destruct (loaded_record w (String c path)) as [r|]; [|done].
    unfold dict_truthy. case_decide as Hr.
    - by rewrite bool_decide_eq_true_2.
    - by rewrite bool_decide_eq_false_2. }
  destruct (loaded_record w (String c path)) as [r|].
  - case_decide.
    + by apply setup_resolve_raise.
    + by apply setup_after_resolve.
  - by apply setup_resolve_raise.
Qed.

Lemma config_strategy_with_a_missing_file :
  setup_openstack_connection Worlds.bare "config" (Some "invalid.conf") ∅ idle
  = (Raise (Exception "ValueError" "Failed to load configuration from invalid.conf"),
     IoState [] []
       [EvConfigRead "invalid.conf";
        EvPrint "Error loading configuration file 'invalid.conf': Configuration file must contain an [openstack] section"]).
Proof.
  rewrite (config_strategy Worlds.bare "invalid.conf" ∅ idle eq_refl)
    by discriminate.
  vm_compute. reflexivity.
Defined.

Lemma unknown_method_example :
  setup_openstack_connection Worlds.bare "invalid" None ∅ idle
  = (Raise (Exception "ValueError" "Unknown authentication method: invalid"), idle).
Proof.
  apply (early_failures Worlds.bare "invalid" None ∅ idle); [reflexivity|].
  unfold known_methods. rewrite !not_elem_of_cons.
  split_and!; try discriminate. apply not_elem_of_nil.
Defined.




(** *** The program entry *)

(** With the SDK at hand the entry block is: connect, report, and turn any
    exception into a printed line and exit status 1. *)
Lemma main_run w args s :
  OPENSTACK_AVAILABLE w = true →
  main w args s
  = match cli_connect w args s with
    | (Ok conn, s1) =>
        match cli_report w args conn s1 with
        | (Ok _, s2) => (Ok 0, s2)
        | (Raise e, s2) => (Ok 1, after s2 [EvPrint ("Error: " +:+ exn_str e)])
        end
    | (Raise e, s1) => (Ok 1, after s1 [EvPrint ("Error: " +:+ exn_str e)])
    end.
Proof.
  intros Hsdk. unfold main, try_except, cli_report. rewrite Hsdk. cbn [negb].
  destruct (export_toggles args) as [export_instances export_hypervisors].
  cbn [fst snd]. fold (cli_connect w args).
  destruct (cli_connect w args s) as [[conn|e] s1] eqn:Hc.
  - erewrite bind_ok by exact Hc.
    destruct (get_openstack_info_and_export_csv _ _ _ _ _ _ s1)
      as [[[]|e] s2] eqn:Hr.
    + erewrite bind_ok by exact Hr. reflexivity.
    + erewrite bind_raise by exact Hr. reflexivity.
  - erewrite bind_raise by exact Hc. reflexivity.
Qed.

Lemma main_returns w args s : ∃ code s', main w args s = (Ok code, s').
Proof.
  destruct (OPENSTACK_AVAILABLE w) eqn:Hsdk.
  - rewrite (main_run w args s Hsdk).
    destruct (cli_connect w args s) as [[conn|e] s1]; [|by eexists _, _].
    destruct (cli_report w args conn s1) as [[[]|e] s2]; by eexists _, _.
  - unfold main, try_except. rewrite Hsdk. cbn [negb].
    rewrite !bind_print. by eexists _, _.
Qed.

(** X13. The entry block never lets an exception escape: it ends with exit
    status 0 or 1, and with 0 exactly when the SDK is present, the
    connection was established and the report builder returned.  Without the
    SDK it only prints its installation advice and ends with 1. *)
Theorem main_exit_status (w : world) (args : Namespace.t) (s : io_state) :
  ∃ code s',
    main w args s = (Ok code, s')
    ∧ (code = 0 ∨ code = 1)
    ∧ (code = 0 ↔
       OPENSTACK_AVAILABLE w = true
       ∧ ∃ conn s1, cli_connect w args s = (Ok conn, s1)
                    ∧ cli_report w args conn s1 = (Ok (), s'))
    ∧ (OPENSTACK_AVAILABLE w = false →
       code = 1 ∧ ∃ lines, s' = after s (EvPrint <$> lines)).
Proof.
  destruct (OPENSTACK_AVAILABLE w) eqn:Hsdk.
  - rewrite (main_run w args s Hsdk).
    destruct (cli_connect w args s) as [[conn|e] s1].
    + destruct (cli_report w args conn s1) as [[[]|e] s2] eqn:Hr.
      * exists 0, s2. split_and!; [done|by left| |done].
        split; [|done]. intros _. split; [done|]. by exists conn, s1.
      * eexists 1, _. split_and!; [done|by right| |done].
        split; [done|]. intros (_ & conn' & s1' & [= <- <-] & Hr').
        rewrite Hr' in Hr. discriminate.
    + eexists 1, _. split_and!; [done|by right| |done].
      split; [done|]. by intros (_ & conn' & s1' & [=] & _).
  - unfold main, try_except. rewrite Hsdk. cbn [negb].
    rewrite !bind_print. unfold mret, io_ret. rewrite !after_after.
    eexists 1, _. split_and!; [done|by right| |].
    + split; [done|]. by intros [[=] _].
    + intros _. split; [done|].
      by eexists [_; _; _; _; _; _].
Qed.

(** X14. With both passes switched off on the command line the program
    still connects first; it then prints the "at least one export option"
    error, fetches nothing, writes nothing, and ends with exit status 0. *)
Theorem nothing_to_export_exits_zero (w : world) (args : Namespace.t)
    (s s1 : io_state) (conn : connection) :
  OPENSTACK_AVAILABLE w = true →
  export_toggles args = (false, false) →
  cli_connect w args s = (Ok conn, s1) →
  main w args s
  = (Ok 0,
     after s1 [EvPrint
       "Error: At least one export option (instances or hypervisors) must be enabled"]).
Proof.
  intros Hsdk Ht Hc. rewrite (main_run w args s Hsdk), Hc.
  unfold cli_report. rewrite Ht. reflexivity.
Qed.

Lemma nothing_to_export_example :
  (main Worlds.bare Cli.nothing_to_export idle).1 = Ok 0
  ∧ last (trace (main Worlds.bare Cli.nothing_to_export idle).2)
    = Some (EvPrint
        "Error: At least one export option (instances or hypervisors) must be enabled").
Proof.
  rewrite (nothing_to_export_exits_zero Worlds.bare Cli.nothing_to_export idle
             (cli_connect Worlds.bare Cli.nothing_to_export idle).2 Example.conn
             eq_refl eq_refl) by (vm_compute; reflexivity).
  split; [reflexivity|]. vm_compute. reflexivity.
Defined.

(** X15. The two shortcuts override the toggles, and [--instances-only]
    wins over [--hypervisors-only]: once connected, a run with
    [--instances-only] never lists hypervisors and writes at most the
    instance file; a run with only [--hypervisors-only] does no per-instance
    project, image, volume or clock lookup and writes at most the
    hypervisor file. *)
Theorem shortcuts_select_one_pass (w : world) (args : Namespace.t)
    (s s1 : io_state) (conn : connection) :
  OPENSTACK_AVAILABLE w = true →
  Namespace.instances_only args = true ∨ Namespace.hypervisors_only args = true →
  cli_connect w args s = (Ok conn, s1) →
  ∃ code evs,
    main w args s = (Ok code, after s1 evs)
    ∧ Forall (λ ev, report_event (Namespace.instances_only args)
                      (negb (Namespace.instances_only args))
                      (Namespace.instances_file args)
                      (Namespace.hypervisors_file args) ev = true) evs.
Proof.
  intros Hsdk Hshort Hc. rewrite (main_run w args s Hsdk), Hc.
  assert (Ht : export_toggles args
               = (Namespace.instances_only args,
                  negb (Namespace.instances_only args))).
  { unfold export_toggles. destruct (Namespace.instances_only args); [done|].
    by destruct Hshort as [H| ->]. }
  unfold cli_report. rewrite Ht. cbn [fst snd].
  destruct (report_builder_allows w (Namespace.instances_file args)
              (Namespace.hypervisors_file args) (Some conn)
              (Namespace.instances_only args)
              (negb (Namespace.instances_only args)))
    as (outcome & evs & Hrun & Hev' & _).
  assert (Hev : Forall (λ ev, report_event (Namespace.instances_only args)
                                (negb (Namespace.instances_only args))
                                (Namespace.instances_file args)
                                (Namespace.hypervisors_file args) ev = true) evs).
  { eapply Forall_impl; [exact Hev'|]. by intros ev [H _]. }
  rewrite Hrun. destruct outcome as [[]|e].
  - by exists 0, evs.
  - eexists 1, _. rewrite after_after. split; [done|].
    apply Forall_app. split; [done|]. by repeat constructor.
Qed.

Lemma both_shortcuts_example :
  ∃ code evs,
    main Worlds.bare Cli.both_shortcuts idle
    = (Ok code, after (cli_connect Worlds.bare Cli.both_shortcuts idle).2 evs)
    ∧ Forall (λ ev, report_event true false "openstack_instances.csv"
                      "openstack_hypervisors.csv" ev = true) evs.
Proof.
  exact (shortcuts_select_one_pass Worlds.bare Cli.both_shortcuts idle
           (cli_connect Worlds.bare Cli.both_shortcuts idle).2 Example.conn
           eq_refl (or_introl eq_refl) eq_refl).
Defined.

(** *** Credentials from the command line *)

Lemma set_if_given_lookup key value (acc : auth_dict) k :
  set_if_given key value acc !! k
  = if decide (k = key) then
      match value with
      | Some v => if PyStr.truthy v then Some v else acc !! k
      | None => acc !! k
      end
    else acc !! k.
Proof.
  unfold set_if_given.
  destruct value as [v|]; [destruct (PyStr.truthy v)|];
    case_decide; subst; try done.
  - apply lookup_insert_eq.
  - by apply lookup_insert_ne.
Qed.

Ltac closed_decides :=
  repeat first [ rewrite decide_True by reflexivity
               | rewrite decide_False by discriminate ].

Lemma flag_lookup (flag : option string) :
  (∃ v, match flag with
        | Some v => if PyStr.truthy v then Some v else None
        | None => None
        end = Some v ∧ v ≠ "") ↔ flag_given flag.
Proof.
  unfold flag_given. destruct flag as [[|c v]|]; cbn; split.
  - by intros (? & [=] & _).
  - by intros (? & [= <-] & ?).
  - intros _. eexists. split; [done | discriminate].
  - intros _. eexists. split; [done | discriminate].
  - by intros (? & [=] & _).
  - by intros (? & [=] & _).
Qed.

Lemma auth_kwargs_complete args :
  Forall (present_nonempty (auth_kwargs_of args)) declared_order
  ↔ flag_given (Namespace.auth_url args) ∧ flag_given (Namespace.username args)
    ∧ flag_given (Namespace.password args)
    ∧ flag_given (Namespace.project_name args).
Proof.
  unfold declared_order. rewrite !Forall_cons, Forall_nil.
  unfold present_nonempty, auth_kwargs_of.
  repeat (rewrite set_if_given_lookup; closed_decides).
  rewrite !lookup_empty.
  rewrite !flag_lookup. tauto.
Qed.

Lemma connect_and_authorize_quiet w r :
  yields (λ ev, is_local_read ev = false) (λ _, True) (connect_and_authorize w r).
Proof.
  unfold connect_and_authorize. repeat (ystep; try done).
Qed.

Lemma after_resolution_quiet w r :
  yields (λ ev, is_local_read ev = false) (λ _, True) (after_resolution w r).
Proof.
  unfold after_resolution. case_decide; [apply connect_and_authorize_quiet|].
  apply yields_raise.
Qed.

Lemma setup_with_args w kwargs s :
  OPENSTACK_AVAILABLE w = true →
  setup_openstack_connection w "args" None kwargs s = after_resolution w kwargs s.
Proof.
  intros Hsdk. apply setup_after_resolve.
  unfold resolve_auth_config. by rewrite Hsdk.
Qed.

Lemma report_event_not_local ei eh f1 f2 ev :
  report_allows ei eh f1 f2 ev → is_local_read ev = false.
Proof. intros [H _]. by destruct ev. Qed.

(** X16. With [--auth-method args] the program never looks at the
    environment, at a configuration file or at the terminal, whatever
    happens later.  The record is complete exactly when the four required
    flags were given non-empty; otherwise the run prints the missing-fields
    error, does nothing else, and ends with exit status 1. *)
Theorem args_method_reads_nothing_local (w : world) (args : Namespace.t) :
  Namespace.auth_method args = "args" →
  (∃ code evs,
     (∀ s, main w args s = (Ok code, after s evs))
     ∧ Forall (λ ev, is_local_read ev = false) evs)
  ∧ (Forall (present_nonempty (auth_kwargs_of args)) declared_order
     ↔ flag_given (Namespace.auth_url args) ∧ flag_given (Namespace.username args)
       ∧ flag_given (Namespace.password args)
       ∧ flag_given (Namespace.project_name args))
  ∧ (OPENSTACK_AVAILABLE w = true →
     ¬ Forall (present_nonempty (auth_kwargs_of args)) declared_order →
     ∀ s, main w args s
          = (Ok 1, after s [EvPrint ("Error: " +:+ exn_str
                                       (validation_error (auth_kwargs_of args)))])).
Proof.
  intros Hm. split_and!.
  - assert (Hy : yields (λ ev, is_local_read ev = false) (λ _, True) (main w args)).
    { unfold main. apply yields_try_except.
      2:{ intros e. ystep; [by apply yields_print | by ystep]. }
      destruct (OPENSTACK_AVAILABLE w) eqn:Hsdk; cbn [negb].
      2:{ repeat (ystep; try done). }
      destruct (export_toggles args) as [ei eh].
      rewrite Hm. change (String.eqb "args" "args") with true. cbv iota.
      eapply (yields_bind _ (λ _, True)).
      { destruct (after_resolution_quiet w (auth_kwargs_of args))
          as (r & evs & Hrun & Hev & _).
        exists r, evs. split_and!; [|done|done].
        intros s. rewrite <- Hrun. by apply setup_with_args. }
      intros conn _. ystep; [|by ystep].
      eapply yields_events; [apply report_builder_allows|].
      apply report_event_not_local. }
    destruct Hy as ([code|e] & evs & Hrun & Hev & _); [by exists code, evs|].
    exfalso. specialize (Hrun idle).
    destruct (main_returns w args idle) as (code & s' & Hmain).
    rewrite Hmain in Hrun. discriminate.
  - apply auth_kwargs_complete.
  - intros Hsdk Hn s. rewrite (main_run w args s Hsdk).
    unfold cli_connect. rewrite Hm.
    change (String.eqb "args" "args") with true. cbv iota.
    rewrite (setup_with_args w _ s Hsdk). unfold after_resolution.
    by rewrite decide_False.
Qed.

Lemma missing_flags_example :
  let args :=
    {| Namespace.auth_method := "args"; Namespace.config_file := None;
       Namespace.auth_url := Some "https://example.com";
       Namespace.username := None; Namespace.password := None;
       Namespace.project_name := None;
       Namespace.user_domain_name := Some "default";
       Namespace.project_domain_name := Some "default";
       Namespace.region_name := None; Namespace.interface := Some "public";
       Namespace.instances_file := "openstack_instances.csv";
       Namespace.hypervisors_file := "openstack_hypervisors.csv";
       Namespace.export_instances := true; Namespace.export_hypervisors := true;
       Namespace.instances_only := false; Namespace.hypervisors_only := false |} in
  main Worlds.bare args idle
  = (Ok 1,
     IoState [] []
       [EvPrint "Error: Missing required authentication fields: username, password, project_name"]).
Proof.
  intros args.
  destruct (args_method_reads_nothing_local Worlds.bare args eq_refl)
    as (_ & Hiff & Hmissing).
  rewrite Hmissing; [vm_compute; reflexivity | reflexivity |].
  intros Hc. apply Hiff in Hc as (_ & (v & [=] & _) & _).
Defined.

(** *** What every run traces *)

Section emits.
Context (P : event → Prop).

Lemma emits_ret {A} (a : A) : emits P (mret a).
Proof. intros s r s' [= <- <-]. exists []. by rewrite app_nil_r. Qed.

Lemma emits_raise {A} e : emits P (raise (A:=A) e).
Proof. intros s r s' [= <- <-]. exists []. by rewrite app_nil_r. Qed.

Lemma emits_lift {A} (r : result A) : emits P (lift r).
Proof. intros s r' s' [= <- <-]. exists []. by rewrite app_nil_r. Qed.

Lemma emits_emit ev : P ev → emits P (emit ev).
Proof. intros HP s r s' [= <- <-]. exists [ev]. by repeat constructor. Qed.

Lemma emits_print line : P (EvPrint line) → emits P (print line).
Proof. apply emits_emit. Qed.

Lemma emits_input prompt : P (EvInput prompt) → emits P (input prompt).
Proof.
  intros HP s r s'. unfold input.
  destruct (stdin s); intros [= <- <-]; exists [EvInput prompt];
    by repeat constructor.
Qed.

Lemma emits_getpass prompt : P (EvGetpass prompt) → emits P (getpass prompt).
Proof.
  intros HP s r s'. unfold getpass.
  destruct (tty s); intros [= <- <-]; exists [EvGetpass prompt];
    by repeat constructor.
Qed.

Lemma emits_bind {A B} (m : IO A) (f : A → IO B) :
  emits P m → (∀ a, emits P (f a)) → emits P (m ≫= f).
Proof.
  intros Hm Hf s r s'. unfold mbind, io_bind.
  destruct (m s) as [[a|e] s1] eqn:E.
  - intros Hfa. destruct (Hm _ _ _ E) as (evs1 & Ht1 & HP1).
    destruct (Hf a _ _ _ Hfa) as (evs2 & Ht2 & HP2).
    exists (evs1 ++ evs2). rewrite Ht2, Ht1, app_assoc.
    split; [done | by apply Forall_app].
  - intros [= <- <-]. by apply (Hm _ _ _ E).
Qed.

Lemma emits_try_except {A} (body : IO A) (handler : exn → IO A) :
  emits P body → (∀ e, emits P (handler e)) → emits P (try_except body handler).
Proof.
  intros Hb Hh s r s'. unfold try_except.
  destruct (body s) as [[a|e] s1] eqn:E.
  - intros [= <- <-]. by apply (Hb _ _ _ E).
  - intros Hhe. destruct (Hb _ _ _ E) as (evs1 & Ht1 & HP1).
    destruct (Hh e _ _ _ Hhe) as (evs2 & Ht2 & HP2).
    exists (evs1 ++ evs2). rewrite Ht2, Ht1, app_assoc.
    split; [done | by apply Forall_app].
Qed.

Lemma emits_yields {A} (Q : A → Prop) (m : IO A) : yields P Q m → emits P m.
Proof.
  intros (r0 & evs & Hm & HP & _) s r s'. rewrite Hm. intros [= <- <-].
  by exists evs.
Qed.

End emits.

Lemma emits_events {A} (P P' : event → Prop) (m : IO A) :
  emits P m → (∀ ev, P ev → P' ev) → emits P' m.
Proof.
  intros Hm Himp s r s' Hrun. destruct (Hm _ _ _ Hrun) as (evs & Ht & HP).
  exists evs. split; [done|]. eapply Forall_impl; done.
Qed.

Ltac estep :=
  lazymatch goal with
  | |- emits _ (mret _) => apply emits_ret
  | |- emits _ (raise _) => apply emits_raise
  | |- emits _ (print _) => apply emits_print
  | |- emits _ (emit _) => apply emits_emit
  | |- emits _ (input _) => apply emits_input
  | |- emits _ (getpass _) => apply emits_getpass
  | |- emits _ (lift _) => apply emits_lift
  | |- emits _ (try_except _ _) => apply emits_try_except; [|intros ?]
  | |- emits _ (_ ≫= _) => apply emits_bind; [|intros ?]
  | |- emits _ (if ?b then _ else _) => destruct b
  | |- emits _ (match ?x with _ => _ end) => destruct x
  end.

Lemma load_config_file_emits w path :
  emits (λ ev, is_connect ev = false) (load_config_file w path).
Proof.
  unfold load_config_file, config_read.
  estep.
  - estep; [estep; [by estep | destruct (fs w path); by estep]|].
    estep; [by estep|]. estep; [|by estep].
    generalize (∅ : auth_dict). induction config_mapping as [|[ck pk] l IH];
      intros acc; cbn [for_fold]; [by estep|].
    estep; [|apply IH]. unfold copy_option. repeat (estep; try done).
  - repeat (estep; try done).
Qed.

Lemma get_auth_from_environment_emits w :
  emits (λ ev, is_connect ev = false) (get_auth_from_environment w).
Proof.
  unfold get_auth_from_environment.
  generalize (∅ : auth_dict). induction env_mapping as [|[var key] l IH];
    intros acc; cbn [for_fold]; [by estep|].
  estep; [|apply IH]. unfold environ_get. repeat (estep; try done).
Qed.

Lemma get_auth_interactive_emits :
  emits (λ ev, is_connect ev = false) get_auth_interactive.
Proof. unfold get_auth_interactive. repeat (estep; try done). Qed.

Lemma try_default_configs_emits w paths acc :
  emits (λ ev, is_connect ev = false) (try_default_configs w paths acc).
Proof.
  induction paths as [|path rest IH]; cbn [try_default_configs]; [by estep|].
  estep; [unfold path_exists; repeat (estep; try done)|].
  estep; [|done].
  estep; [apply load_config_file_emits|].
  estep; [|done]. estep; [|done].
  repeat (estep; try done).
Qed.

Lemma resolve_auth_config_emits w auth_method config_file kwargs :
  emits (λ ev, is_connect ev = false)
    (resolve_auth_config w auth_method config_file kwargs).
Proof.
  unfold resolve_auth_config.
  estep; [by estep|].
  estep.
  { estep; [apply get_auth_from_environment_emits|].
    estep; [|by estep].
    estep; [apply try_default_configs_emits|].
    estep; [|by estep].
    estep; [by estep | apply get_auth_interactive_emits]. }
  estep; [apply get_auth_from_environment_emits|].
  estep.
  { destruct config_file as [[|c path]|]; try by estep.
    estep; [apply load_config_file_emits|]. repeat (estep; try done). }
  estep; [apply get_auth_interactive_emits|].
  repeat (estep; try done).
Qed.

Lemma set_defaults_complete (r : auth_dict) :
  Forall (present_nonempty r) declared_order →
  Forall (present_nonempty (set_defaults r)) declared_order
  ∧ Forall (λ key, is_Some (set_defaults r !! key)) defaulted_keys.
Proof.
  intros Hc. split.
  - eapply Forall_impl; [exact Hc|]. intros field (v & Hv & Hne).
    exists v. split; [|done].
    rewrite set_defaults_lookup, Hv. by repeat case_decide.
  - unfold defaulted_keys. repeat constructor;
      rewrite set_defaults_lookup; by closed_decides.
Qed.

(** X17. Whatever the strategy, the input and the outcome, the SDK's connect
    call is only ever made with a record in which the four required fields
    are present and non-empty and the three optional keys
    (user_domain_name, project_domain_name, interface) are set. *)
Theorem connect_only_with_a_valid_record (w : world) (auth_method : string)
    (config_file : option string) (kwargs : auth_dict)
    (s s' : io_state) (outcome : result connection) :
  setup_openstack_connection w auth_method config_file kwargs s = (outcome, s') →
  ∃ evs,
    trace s' = trace s ++ evs
    ∧ ∀ auth_config,
        EvConnect auth_config ∈ evs →
        Forall (present_nonempty auth_config) declared_order
        ∧ Forall (λ key, is_Some (auth_config !! key)) defaulted_keys.
Proof.
  intros Hrun.
  assert (He : emits connects_safely
                 (setup_openstack_connection w auth_method config_file kwargs)).
  { unfold setup_openstack_connection. apply emits_bind.
    - eapply emits_events; [apply resolve_auth_config_emits|].
      by intros [] H.
    - intros r. pose proof (validate_true_iff r) as Hv.
      destruct (validate_auth_config r) as [is_valid missing]. cbn in Hv.
      destruct is_valid; cbn [negb]; [|by estep].
      destruct (set_defaults_complete r) as [Hc Hd]; [by apply Hv|].
      unfold connect_and_authorize. repeat (estep; try done). }
  destruct (He _ _ _ Hrun) as (evs & Ht & HP).
  exists evs. split; [done|]. intros auth_config Hin.
  rewrite Forall_forall in HP. exact (HP _ Hin).
Qed.

Lemma connect_record_example :
  ∃ evs,
    trace (setup_openstack_connection Worlds.from_file "auto" None ∅ idle).2
    = trace idle ++ evs
    ∧ ∀ auth_config,
        EvConnect auth_config ∈ evs →
        Forall (present_nonempty auth_config) declared_order
        ∧ Forall (λ key, is_Some (auth_config !! key)) defaulted_keys.
Proof.
  apply (connect_only_with_a_valid_record Worlds.from_file "auto" None ∅ idle _
           (setup_openstack_connection Worlds.from_file "auto" None ∅ idle).1).
  apply surjective_pairing.
Defined.

(** *** What the loader prints *)

(** X18. The loader reads the file once and prints one line, "Error loading
    configuration file '<path>': ...", exactly when it returns no record; a
    successful load prints nothing. *)
Theorem loader_reports_every_failure (w : world) (path : string) :
  match loaded_record w path with
  | Some _ => load_events w path = [EvConfigRead path]
  | None =>
      ∃ reason,
        load_events w path
        = [EvConfigRead path;
           EvPrint ("Error loading configuration file '" +:+ path +:+ "': "
                    +:+ reason)]
  end.
Proof.
  unfold loaded_record, load_events, load_config_file, try_except.
  pose proof (config_read_run w path idle) as Hread.
  destruct (fs w path) as [| | e | config].
  1,2: erewrite bind_ok by exact Hread; cbn; by eexists.
  { erewrite bind_raise by exact Hread. cbn. by eexists. }
  erewrite bind_ok by exact Hread.
  destruct (contains config "openstack"); [|cbn; by eexists].
  cbn [negb]. rewrite config_mapping_keys.
  destruct (copy_options_spec config recognized_keys ∅
              (after idle [EvConfigRead path]))
    as [(d & Hrun & _) | (k & e & Hrun & _)].
  - erewrite bind_ok by exact Hrun. reflexivity.
  - erewrite bind_raise by exact Hrun. cbn. by eexists.
Qed.

(** *** Instances without project, flavor or image *)

Ltac ysteps :=
  repeat first
    [ apply yields_for_fold; [done | intros ? ? _]
    | ystep; try done ].

Lemma volumes_loop_yields (P : event → Prop) conn vols :
  (∀ id, P (EvGetVolume id)) →
  yields P (λ _, True)
    (for_fold vols ([] : list string)
       (λ volumes_info vol,
          info ← volume_info conn vol; mret (volumes_info ++ [info]))).
Proof.
  intros HP. apply yields_for_fold; [done|]. intros acc vol _.
  unfold volume_info. ysteps.
Qed.

Lemma uptime_of_yields (P : event → Prop) w server :
  P EvNow → yields P (λ _, True) (uptime_of w server).
Proof. intros HP. unfold uptime_of. ysteps. Qed.

Section instance_parts.
Context (w : world) (conn : connection) (server : Server.t).

Lemma project_absent :
  Server.project_id server = None ∨ Server.project_id server = Some "" →
  yields (λ ev, ∀ id, ev ≠ EvGetProject id)
    (λ r, row_get r "Project Name" = Some (PStr "N/A"))
    (instance_details w conn server).
Proof.
  intros Hp. unfold instance_details.
  ystep; [by apply yields_print|].
  eapply (yields_bind _ (λ project, project = None)).
  { destruct Hp as [-> | ->]; by apply yields_ret. }
  intros project ->.
  ystep; [ysteps|]. ystep; [ysteps|].
  ystep; [by apply volumes_loop_yields|].
  ystep; [by apply uptime_of_yields|].
  ystep; [by ystep|]. by ystep.
Qed.

Lemma flavor_absent :
  server_has server "flavor" = false →
  yields (λ ev, ∀ id, ev ≠ EvGetFlavor id)
    (λ r, row_get r "Flavor Name" = Some (PStr "N/A")
          ∧ row_get r "VCPUs" = Some (PStr "N/A")
          ∧ row_get r "RAM (MB)" = Some (PStr "N/A")
          ∧ row_get r "Disk (GB)" = Some (PStr "N/A"))
    (instance_details w conn server).
Proof.
  intros Hf. unfold instance_details. rewrite Hf.
  ystep; [by apply yields_print|].
  ystep; [ysteps|].
  eapply (yields_bind _ (λ flavor, flavor = None)); [by apply yields_ret|].
  intros flavor ->.
  ystep; [ysteps|].
  ystep; [by apply volumes_loop_yields|].
  ystep; [by apply uptime_of_yields|].
  ystep; [by ystep|]. by ystep.
Qed.

Lemma image_absent :
  server_has server "image" = false →
  yields (λ ev, ∀ id, ev ≠ EvGetImage id)
    (λ r, row_get r "Image Name" = Some (PStr "N/A"))
    (instance_details w conn server).
Proof.
  intros Hi. unfold instance_details. rewrite Hi.
  ystep; [by apply yields_print|].
  ystep; [ysteps|]. ystep; [ysteps|].
  eapply (yields_bind _ (λ image, image = None)); [by apply yields_ret|].
  intros image ->.
  ystep; [by apply volumes_loop_yields|].
  ystep; [by apply uptime_of_yields|].
  ystep; [by ystep|]. by ystep.
Qed.

End instance_parts.

Lemma after_inj s evs1 evs2 : after s evs1 = after s evs2 → evs1 = evs2.
Proof. unfold after. intros [= H]. by apply app_inv_head in H. Qed.

(** X19. What an instance does not carry shows as "N/A" and costs no
    lookup: without a project id the project is not asked for and the
    "Project Name" column is "N/A"; without a flavor key the flavor is not
    asked for and "Flavor Name", "VCPUs", "RAM (MB)" and "Disk (GB)" are
    "N/A"; without an image key the same holds for "Image Name". *)
Theorem absent_parts_are_na (w : world) (conn : connection) (server : Server.t)
    (s s' : io_state) (r : row) :
  instance_details w conn server s = (Ok r, s') →
  ∃ evs,
    s' = after s evs
    ∧ (Server.project_id server = None ∨ Server.project_id server = Some "" →
       row_get r "Project Name" = Some (PStr "N/A")
       ∧ Forall (λ ev, ∀ id, ev ≠ EvGetProject id) evs)
    ∧ (server_has server "flavor" = false →
       (row_get r "Flavor Name" = Some (PStr "N/A")
        ∧ row_get r "VCPUs" = Some (PStr "N/A")
        ∧ row_get r "RAM (MB)" = Some (PStr "N/A")
        ∧ row_get r "Disk (GB)" = Some (PStr "N/A"))
       ∧ Forall (λ ev, ∀ id, ev ≠ EvGetFlavor id) evs)
    ∧ (server_has server "image" = false →
       row_get r "Image Name" = Some (PStr "N/A")
       ∧ Forall (λ ev, ∀ id, ev ≠ EvGetImage id) evs).
Proof.
  intros Hrun.
  destruct (yields_run _ _ _ _ _ _
              (instance_details_allowed w conn true true "" "" server eq_refl) Hrun)
    as (evs & Hs & _).
  exists evs. split; [done|]. subst s'. split_and!.
  - intros Hp.
    destruct (yields_run _ _ _ _ _ _ (project_absent w conn server Hp) Hrun)
      as (evs' & ->%after_inj & Hev & Hr). split; [by apply Hr | done].
  - intros Hf.
    destruct (yields_run _ _ _ _ _ _ (flavor_absent w conn server Hf) Hrun)
      as (evs' & ->%after_inj & Hev & Hr). split; [by apply Hr | done].
  - intros Hi.
    destruct (yields_run _ _ _ _ _ _ (image_absent w conn server Hi) Hrun)
      as (evs' & ->%after_inj & Hev & Hr). split; [by apply Hr | done].
Qed.

Lemma bare_instance_example :
  let server :=
    {| Server.id := "server-000"; Server.name := "bare";
       Server.status := "BUILD"; Server.project_id := None;
       Server.flavor := None; Server.image := None;
       Server.addresses := []; Server.attached_volumes := [];
       Server.created_at := PNone; Server.metadata := "{}";
       Server.to_dict := ∅ |} in
  ∃ r, (instance_details Worlds.bare Example.conn server idle).1 = Ok r
       ∧ row_get r "Project Name" = Some (PStr "N/A")
       ∧ row_get r "Flavor Name" = Some (PStr "N/A")
       ∧ row_get r "Image Name" = Some (PStr "N/A").
Proof.
  intros server.
  destruct (absent_parts_are_na Worlds.bare Example.conn server idle
              (instance_details Worlds.bare Example.conn server idle).2
              (match (instance_details Worlds.bare Example.conn server idle).1 with
               | Ok r => r
               | Raise _ => []
               end))
    as (evs & _ & Hp & Hf & Hi); [vm_compute; reflexivity|].
  eexists. split; [vm_compute; reflexivity|].
  split_and!.
  - apply Hp. by left.
  - apply Hf. reflexivity.
  - apply Hi. reflexivity.
Defined.

(** *** The "Public IP" column on well-formed entries *)

(** X20. For a first network entry whose network name holds no colon and
    whose address holds neither colon nor opening parenthesis, the "Public
    IP" value is the address (stripped) exactly when the joined entry,
    name, address and type marker together, contains "floating", and "N/A"
    otherwise; later entries play no part. *)
Theorem public_ip_on_well_formed_entry (network_name addr ips_type : string)
    (rest : list string) :
  free_of ":" network_name = true →
  free_of ":" addr = true → free_of "(" addr = true →
  public_ip (network_entry network_name addr ips_type :: rest)
  = Ok (if PyStr.contains "floating" (network_entry network_name addr ips_type)
        then PyStr.strip (addr +:+ " ") else "N/A").
Proof.
  intros Hn Ha Hp. unfold public_ip.
  destruct (PyStr.contains _ _); [|done].
  unfold network_entry.
  change (network_name +:+ ":" +:+ addr +:+ " (" +:+ ips_type +:+ ")")
    with (network_name +:+ String ":" (addr +:+ " (" +:+ ips_type +:+ ")")).
  rewrite (split_sep ":" network_name _ Hn).
  destruct (split_head ":" (addr +:+ " (") (ips_type +:+ ")")) as (hd & tl & _ & Hs).
  { apply free_of_app; done. }
  rewrite append_assoc in Hs. rewrite Hs. cbn [list_getitem lookup list_lookup].
  rewrite append_assoc.
  change (addr +:+ " (" +:+ hd) with (addr +:+ " " +:+ String "(" hd).
  rewrite <- append_assoc.
  rewrite (split_sep "(" (addr +:+ " ") hd) by (by apply free_of_app).
  reflexivity.
Qed.

Lemma floating_entry_example :
  public_ip (network_entry "ext-net" "203.0.113.7" "floating"
             :: [network_entry "private" "10.0.0.1" "fixed"])
  = Ok "203.0.113.7".
Proof.
  rewrite (public_ip_on_well_formed_entry "ext-net" "203.0.113.7" "floating")
    by reflexivity.
  reflexivity.
Defined.
